(** * Green Ledger: credit ledger and marketplace engine, and the front end's handlers

    The repository holds the mobile front end (login screen, producer,
    buyer and regulator dashboards).  The engine it calls
    ([/api/producer/mint-credit], [/api/buyer/purchase-credit],
    [/api/regulator/transactions], [/api/regulator/credits-overview]) is not
    among the sources; its parts below are modelled from the design
    document.  The front-end handlers are translated from the TypeScript. *)

From Stdlib Require Import Ascii String List Bool Arith ZArith QArith Lia.
From Stdlib Require Import Sorting.Sorted Sorting.Permutation.
Import ListNotations.
Open Scope string_scope.
Open Scope nat_scope.
Open Scope list_scope.

(* ================================================================== *)
(** ** Values shared by engine and front end *)

(** Error taxonomy of the engine. *)
Inductive error :=
| InvalidInput
| NotFound
| AlreadyRetired
| AlreadySold
| Busy
| Corruption.

Definition error_eqb (a b : error) : bool :=
  match a, b with
  | InvalidInput, InvalidInput | NotFound, NotFound
  | AlreadyRetired, AlreadyRetired | AlreadySold, AlreadySold
  | Busy, Busy | Corruption, Corruption => true
  | _, _ => false
  end.

Inductive result (A : Type) :=
| Ok (a : A)
| Err (e : error).
Arguments Ok {A} a.
Arguments Err {A} e.

(** A field handed to the hasher. *)
Inductive field :=
| FNat (n : nat)
| FStr (s : string)
| FQ (q : Q)
| FZ (z : Z).

Definition digest := string.

(** Hasher: deterministic content hash ([Hash(fields...) -> digest]).  The
    digest algorithm is a parameter of the development. *)
Class Hasher := { Hash : list field -> digest }.

(** Parser of the [production_date] of a mint request (an ISO date);
    [None] when the string is unparsable.  A parameter as well. *)
Class DateParser := { parse_date : string -> option Z }.

(** Fixed hash carried as [prev_hash] by the first ledger entry. *)
Definition genesis : digest := "0000000000000000000000000000000000000000000000000000000000000000".

(* ================================================================== *)
(** ** Data model *)

Module Credit.
Record t := mk {
  id : nat;
  batch_id : string;
  producer_id : string;
  units : Q;
  production_date : Z;
  integrity_hash : digest;
  is_retired : bool;
  owner_id : string
}.
End Credit.

Inductive transaction_type := Mint | Transfer | Retire.

Definition transaction_type_eqb (a b : transaction_type) : bool :=
  match a, b with
  | Mint, Mint | Transfer, Transfer | Retire, Retire => true
  | _, _ => false
  end.

Definition transaction_type_name (ty : transaction_type) : string :=
  match ty with Mint => "mint" | Transfer => "transfer" | Retire => "retire" end.

Module Transaction.
Record t := mk {
  id : nat;
  credit_id : nat;
  from_user_id : string;
  to_user_id : string;
  units : Q;
  transaction_type : transaction_type;
  integrity_hash : digest;
  timestamp : Z;
  prev_hash : digest
}.
End Transaction.

(** Engine state: the CreditStore, the TransactionLedger (oldest first)
    and the generator of fresh credit ids. *)
Record State := mkState {
  credits : list Credit.t;
  ledger : list Transaction.t;
  next_credit_id : nat
}.

Definition init_state : State := mkState [] [] 0.

(* ================================================================== *)
(** ** Engine operations (modelled from the spec) *)

Section Engine.
Context `{Hasher} `{DateParser}.

(** Modelled from the spec: Hasher input of a Credit,
    [(id, producer_id, batch_id, units, production_date)]. *)
Definition credit_fields (id : nat) (producer_id batch_id : string) (units : Q)
    (production_date : Z) : list field :=
  [FNat id; FStr producer_id; FStr batch_id; FQ units; FZ production_date].

(** Modelled from the spec: Hasher input of a Transaction, every field
    but the hash itself, [prev_hash] included. *)
Definition tx_fields (t : Transaction.t) : list field :=
  [FNat (Transaction.id t); FNat (Transaction.credit_id t);
   FStr (Transaction.from_user_id t); FStr (Transaction.to_user_id t);
   FQ (Transaction.units t);
   FStr (transaction_type_name (Transaction.transaction_type t));
   FZ (Transaction.timestamp t); FStr (Transaction.prev_hash t)].

Fixpoint last_tx (l : list Transaction.t) : option Transaction.t :=
  match l with
  | [] => None
  | [t] => Some t
  | _ :: r => last_tx r
  end.

(** Modelled from the spec: [TransactionLedger.Append].  Reads the tail
    hash, stamps the current time clamped to [prev.timestamp + 1] when the
    clock went backwards, hashes all fields including [prev_hash], and
    appends. *)
Definition append (ty : transaction_type) (credit_id : nat)
    (from_user_id to_user_id : string) (units : Q) (now : Z)
    (l : list Transaction.t) : Transaction.t * list Transaction.t :=
  let '(prev, ts) :=
    match last_tx l with
    | None => (genesis, now)
    | Some p =>
        (Transaction.integrity_hash p,
         if (now <? Transaction.timestamp p)%Z
         then (Transaction.timestamp p + 1)%Z else now)
    end in
  let t0 := Transaction.mk (length l) credit_id from_user_id to_user_id units ty
              "" ts prev in
  let t := Transaction.mk (length l) credit_id from_user_id to_user_id units ty
              (Hash (tx_fields t0)) ts prev in
  (t, l ++ [t]).

(** Modelled from the spec: [CreditStore.Get]. *)
Definition find_credit (cid : nat) (cs : list Credit.t) : option Credit.t :=
  find (fun c => Nat.eqb (Credit.id c) cid) cs.

Definition update_credit (cid : nat) (f : Credit.t -> Credit.t)
    (cs : list Credit.t) : list Credit.t :=
  map (fun c => if Nat.eqb (Credit.id c) cid then f c else c) cs.

Definition with_owner (o : string) (c : Credit.t) : Credit.t :=
  Credit.mk (Credit.id c) (Credit.batch_id c) (Credit.producer_id c)
    (Credit.units c) (Credit.production_date c) (Credit.integrity_hash c)
    (Credit.is_retired c) o.

Definition retired (c : Credit.t) : Credit.t :=
  Credit.mk (Credit.id c) (Credit.batch_id c) (Credit.producer_id c)
    (Credit.units c) (Credit.production_date c) (Credit.integrity_hash c)
    true (Credit.owner_id c).

Definition set_ledger (s : State) (l : list Transaction.t) : State :=
  mkState (credits s) l (next_credit_id s).

Definition set_credits (s : State) (cs : list Credit.t) : State :=
  mkState cs (ledger s) (next_credit_id s).

(** Modelled from the spec: [CreditStore.Mint]. *)
Definition mint (s : State) (producer_id batch_id : string) (units : Q)
    (production_date : string) : result (Credit.t * State) :=
  if Qle_bool units 0 then Err InvalidInput else
  match parse_date production_date with
  | None => Err InvalidInput
  | Some d =>
      let id := next_credit_id s in
      let c := Credit.mk id batch_id producer_id units d
                 (Hash (credit_fields id producer_id batch_id units d))
                 false producer_id in
      Ok (c, mkState (credits s ++ [c]) (ledger s) (S id))
  end.

(** Modelled from the spec: [MarketplaceEngine.MintCredit]; the credit and
    its [mint] transaction become visible together. *)
Definition mint_credit (s : State) (producer_id batch_id : string) (units : Q)
    (production_date : string) (now : Z)
    : result (Credit.t * Transaction.t * State) :=
  match mint s producer_id batch_id units production_date with
  | Err e => Err e
  | Ok (c, s1) =>
      let '(t, l) := append Mint (Credit.id c) "" producer_id units now (ledger s1) in
      Ok (c, t, set_ledger s1 l)
  end.

(** Modelled from the spec: step 2 of [PurchaseCredit] (load and validate,
    under the credit's lock). *)
Definition purchase_check (s : State) (cid : nat) : result Credit.t :=
  match find_credit cid (credits s) with
  | None => Err NotFound
  | Some c =>
      if Credit.is_retired c then Err AlreadyRetired
      else if negb (String.eqb (Credit.owner_id c) (Credit.producer_id c))
      then Err AlreadySold
      else Ok c
  end.

(** Step 3: append the [transfer] transaction. *)
Definition purchase_append (s : State) (c : Credit.t) (buyer_id : string) (now : Z)
    : Transaction.t * State :=
  let '(t, l) := append Transfer (Credit.id c) (Credit.owner_id c) buyer_id
                   (Credit.units c) now (ledger s) in
  (t, set_ledger s l).

(** Step 4: [owner_id = buyer_id] on the credit. *)
Definition set_owner (s : State) (cid : nat) (buyer_id : string) : State :=
  set_credits s (update_credit cid (with_owner buyer_id) (credits s)).

(** Modelled from the spec: [MarketplaceEngine.PurchaseCredit], steps 2-4
    run while the lock is held. *)
Definition purchase_credit (s : State) (cid : nat) (buyer_id : string) (now : Z)
    : result (Transaction.t * State) :=
  match purchase_check s cid with
  | Err e => Err e
  | Ok c =>
      let '(t, s1) := purchase_append s c buyer_id now in
      Ok (t, set_owner s1 cid buyer_id)
  end.

(** Modelled from the spec: [POST purchase-credit] with its expected
    units; a mismatch with the credit's units is [InvalidInput]. *)
Definition purchase_request (s : State) (cid : nat) (buyer_id : string)
    (expected_units : Q) (now : Z) : result (Transaction.t * State) :=
  match find_credit cid (credits s) with
  | None => Err NotFound
  | Some c =>
      if negb (Qeq_bool expected_units (Credit.units c)) then Err InvalidInput
      else purchase_credit s cid buyer_id now
  end.

(** Modelled from the spec: [MarketplaceEngine.RetireCredit]. *)
Definition retire_credit (s : State) (cid : nat) (retiring_user_id : string)
    (now : Z) : result (Transaction.t * State) :=
  match find_credit cid (credits s) with
  | None => Err NotFound
  | Some c =>
      if Credit.is_retired c then Err AlreadyRetired
      else
        let '(t, l) := append Retire cid (Credit.owner_id c) retiring_user_id
                         (Credit.units c) now (ledger s) in
        Ok (t, set_credits (set_ledger s l) (update_credit cid retired (credits s)))
  end.

(** Modelled from the spec: [CreditStore.ListAvailable]. *)
Definition list_available (s : State) : list Credit.t :=
  filter (fun c => negb (Credit.is_retired c)
                   && String.eqb (Credit.owner_id c) (Credit.producer_id c))
    (credits s).

(** Modelled from the spec: [GET transactions], the ledger newest first. *)
Definition list_all_newest_first (s : State) : list Transaction.t :=
  rev (ledger s).

(** Modelled from the spec: [VerifyChain]; [None] when the chain is intact,
    [Some i] for the index of the first broken record. *)
Fixpoint verify_from (prev : digest) (i : nat) (l : list Transaction.t)
    : option nat :=
  match l with
  | [] => None
  | t :: r =>
      if String.eqb (Transaction.prev_hash t) prev
         && String.eqb (Transaction.integrity_hash t) (Hash (tx_fields t))
      then verify_from (Transaction.integrity_hash t) (S i) r
      else Some i
  end.

Definition verify_chain (l : list Transaction.t) : option nat :=
  verify_from genesis 0 l.

Record Overview := mkOverview {
  total_credits : nat;
  active_credits : nat;
  retired_credits : nat
}.

(** Modelled from the spec: [ComputeOverview], one snapshot [s]. *)
Definition compute_overview (s : State) : Overview :=
  let total := length (credits s) in
  let retired_n := length (filter Credit.is_retired (credits s)) in
  mkOverview total (total - retired_n) retired_n.

(** Requests served by the engine; [now] is the clock reading. *)
Inductive request :=
| MintReq (producer_id batch_id : string) (units : Q) (production_date : string) (now : Z)
| PurchaseReq (credit_id : nat) (buyer_id : string) (units : Q) (now : Z)
| RetireReq (credit_id : nat) (retiring_user_id : string) (now : Z).

(** One request; a failed request leaves the state as it was. *)
Definition exec (s : State) (r : request) : State :=
  match r with
  | MintReq p b u d now =>
      match mint_credit s p b u d now with Ok (_, _, s') => s' | Err _ => s end
  | PurchaseReq cid b u now =>
      match purchase_request s cid b u now with Ok (_, s') => s' | Err _ => s end
  | RetireReq cid u now =>
      match retire_credit s cid u now with Ok (_, s') => s' | Err _ => s end
  end.

Definition run (s : State) (rs : list request) : State := fold_left exec rs s.

Inductive reachable : State -> Prop :=
| reach_init : reachable init_state
| reach_exec s r : reachable s -> reachable (exec s r).

End Engine.

(* ================================================================== *)
(** ** Front end *)

(** JavaScript numbers as the handlers use them. *)
Inductive jsnum :=
| NaN
| Num (q : Q)
| PosInf
| NegInf.

Definition isNaN (n : jsnum) : bool := match n with NaN => true | _ => false end.

(** [n <= 0] on JavaScript numbers ([NaN <= 0] is false). *)
Definition js_le_zero (n : jsnum) : bool :=
  match n with
  | NaN | PosInf => false
  | NegInf => true
  | Num q => Qle_bool q 0
  end.

(** JSON values placed in request bodies. *)
Inductive jsval :=
| JStr (s : string)
| JNum (n : jsnum)
| JId (id : nat).

(** The JavaScript runtime functions the handlers call:
    [Number(text)] and [new Date(text).toISOString()], the latter [None]
    when it throws a [RangeError]. *)
Class JSRuntime := {
  Number : string -> jsnum;
  date_to_iso : string -> option string
}.

(** Observable effects of a handler, in order. *)
Inductive effect :=
| KeyboardDismiss
| ShowAlert (title message : string)
| SetIsLoading (b : bool)
| HttpPost (url : string) (body : list (string * jsval))
| StorageSetItem (key value : string)
| RouterReplace (path : string)
| RouterPush (path : string)
| ConsoleError (message : string).

Definition is_network (e : effect) : bool :=
  match e with HttpPost _ _ => true | _ => false end.

Definition is_storage_write (e : effect) : bool :=
  match e with StorageSetItem _ _ => true | _ => false end.

(** AsyncStorage as the effects leave it. *)
Fixpoint storage_after (st : list (string * string)) (es : list effect)
    : list (string * string) :=
  match es with
  | [] => st
  | StorageSetItem k v :: r =>
      storage_after ((k, v) :: filter (fun kv => negb (String.eqb (fst kv) k)) st) r
  | _ :: r => storage_after st r
  end.

(** [String.prototype.toLowerCase] on Latin-1 code units. *)
Definition lower_char (c : Ascii.ascii) : Ascii.ascii :=
  (let n := Ascii.nat_of_ascii c in
  if ((65 <=? n) && (n <=? 90)) || ((192 <=? n) && (n <=? 222) && negb (n =? 215))
  then Ascii.ascii_of_nat (n + 32) else c)%nat.

Fixpoint toLowerCase (s : string) : string :=
  match s with
  | EmptyString => EmptyString
  | String c r => String (lower_char c) (toLowerCase r)
  end.

(** White space removed by [String.prototype.trim] (Latin-1 range). *)
Definition is_js_space (c : Ascii.ascii) : bool :=
  let n := Ascii.nat_of_ascii c in
  (((9 <=? n) && (n <=? 13)) || (n =? 32) || (n =? 160))%nat.

Fixpoint trim_start (s : string) : string :=
  match s with
  | EmptyString => EmptyString
  | String c r => if is_js_space c then trim_start r else s
  end.

Fixpoint trim_end (s : string) : string :=
  match s with
  | EmptyString => EmptyString
  | String c r =>
      let r' := trim_end r in
      if is_js_space c && String.eqb r' "" then "" else String c r'
  end.

Definition trim (s : string) : string := trim_end (trim_start s).

(** [handleLogin] of the login screen.  [resp] is the outcome of the
    [/api/auth/login] call: [None] when axios throws, [Some b] when it
    resolves with [response.data.success = b]. *)
Definition handleLogin (BACKEND_URL username password : string) (resp : option bool)
    : list effect :=
  KeyboardDismiss ::
  if String.eqb username "" || String.eqb password "" then
    [ShowAlert "Error" "Please enter both username and password"]
  else if negb (String.eqb password "1234") then
    [ShowAlert "Error" "Invalid password. Demo password is: 1234"]
  else
    let lowercaseUsername := trim (toLowerCase username) in
    let role :=
      if String.eqb lowercaseUsername "producer" then Some "producer"
      else if String.eqb lowercaseUsername "buyer" then Some "buyer"
      else if String.eqb lowercaseUsername "regulator" then Some "regulator"
      else None in
    match role with
    | None =>
        [ShowAlert "Invalid Username"
           "Please enter one of the following usernames:
• producer
• buyer
• regulator"]
    | Some role =>
        SetIsLoading true ::
        HttpPost (BACKEND_URL ++ "/api/auth/login")
          [("username", JStr lowercaseUsername); ("role", JStr role)] ::
        (match resp with
         | Some true =>
             [StorageSetItem "userRole" role;
              StorageSetItem "username" lowercaseUsername;
              RouterReplace ("/" ++ toLowerCase role ++ "-dashboard")]
         | Some false => [ShowAlert "Error" "Login failed. Please try again."]
         | None =>
             [ConsoleError "Login error:";
              ShowAlert "Error" "Login failed. Please check your connection and try again."]
         end) ++ [SetIsLoading false]
    end.

(** [handleRoleSelection] of the role-selection screen
    (src/frontend/app/index.tsx), run when one of the Producer, Buyer or
    Regulator buttons is tapped with [role] = ["producer"], ["buyer"] or
    ["regulator"]; both [AsyncStorage.setItem] calls resolve. *)
Definition handleRoleSelection (role : string) : list effect :=
  let username := toLowerCase role in
  [StorageSetItem "userRole" role;
   StorageSetItem "username" username;
   RouterPush ("/" ++ toLowerCase role ++ "-dashboard")].

(** Component state of the producer dashboard. *)
Record ProducerView := mkProducerView {
  batchId : string;
  units_text : string;
  productionDate : string;
  shown_credits : list Credit.t;
  isLoading : bool;
  producerId : string
}.

Definition with_loading (v : ProducerView) (b : bool) : ProducerView :=
  mkProducerView (batchId v) (units_text v) (productionDate v) (shown_credits v) b
    (producerId v).

Section FrontEnd.
Context `{JSRuntime}.

(** [handleMintCredit] of the producer dashboard.  [resp] is the outcome
    of the mint call: [None] when axios throws, [Some (success, hash)]
    otherwise.  The success alert's OK button (which clears the form and
    refetches) is a later user action, shown here as the alert. *)
Definition handleMintCredit (BACKEND_URL : string) (v : ProducerView)
    (resp : option (bool * string)) : list effect * ProducerView :=
  if String.eqb (batchId v) "" || String.eqb (units_text v) ""
     || String.eqb (productionDate v) "" then
    ([ShowAlert "Error" "Please fill in all fields"], v)
  else if isNaN (Number (units_text v)) || js_le_zero (Number (units_text v)) then
    ([ShowAlert "Error" "Please enter a valid number of units"], v)
  else
    let body_and_result :=
      match date_to_iso (productionDate v) with
      | None =>
          [ConsoleError "Error minting credit:"; ShowAlert "Error" "Failed to mint credit"]
      | Some iso =>
          HttpPost (BACKEND_URL ++ "/api/producer/mint-credit?producer_id="
                      ++ producerId v)
            [("batch_id", JStr (batchId v)); ("units", JNum (Number (units_text v)));
             ("production_date", JStr iso)] ::
          match resp with
          | Some (true, h) =>
              [ShowAlert "Success!"
                 ("Credit minted successfully!

Transaction Hash: " ++ h)]
          | Some (false, _) => []
          | None =>
              [ConsoleError "Error minting credit:"; ShowAlert "Error" "Failed to mint credit"]
          end
      end in
    (SetIsLoading true :: body_and_result ++ [SetIsLoading false], with_loading v false).

End FrontEnd.

(** [executePurchase] of the buyer dashboard, for the credit the user
    confirmed; [resp] as for the other handlers. *)
Definition executePurchase (BACKEND_URL buyerId : string) (credit : Credit.t)
    (resp : option (bool * string)) : list effect :=
  SetIsLoading true ::
  HttpPost (BACKEND_URL ++ "/api/buyer/purchase-credit")
    [("credit_id", JId (Credit.id credit)); ("buyer_id", JStr buyerId);
     ("units", JNum (Num (Credit.units credit)))] ::
  (match resp with
   | Some (true, h) => [ShowAlert "Purchase Successful!" ("Transaction Hash: " ++ h)]
   | Some (false, _) => []
   | None => [ConsoleError "Error purchasing credit:"; ShowAlert "Error" "Failed to purchase credit"]
   end) ++ [SetIsLoading false].

(** [Array.prototype.sort] with the comparator
    [(a, b) => getTime(b.timestamp) - getTime(a.timestamp)]: a stable sort,
    newest timestamp first ([getTime] of an engine timestamp is the
    timestamp itself, in milliseconds). *)
Fixpoint insert_by_time_desc (x : Transaction.t) (l : list Transaction.t)
    : list Transaction.t :=
  match l with
  | [] => [x]
  | y :: r =>
      if (Transaction.timestamp y <? Transaction.timestamp x)%Z then x :: y :: r
      else y :: insert_by_time_desc x r
  end.

Definition sort_by_time_desc (l : list Transaction.t) : list Transaction.t :=
  fold_left (fun acc x => insert_by_time_desc x acc) l [].

(** [fetchTransactions] of the regulator dashboard: the list it stores
    when the response has [success = true]. *)
Definition fetchTransactions (resp : option (bool * list Transaction.t))
    (current : list Transaction.t) : list Transaction.t :=
  match resp with
  | Some (true, txs) => sort_by_time_desc txs
  | _ => current
  end.

(* ================================================================== *)
(** ** Concurrent purchases of one credit (modelled from the spec)

    Each [PurchaseCredit] call is a thread: it takes the credit's lock (or
    gives up with [Busy] while another call holds it), validates the credit
    (step 2), appends the [transfer] (step 3), sets the owner and releases
    the lock (steps 4 and 5).  Threads interleave arbitrarily between these
    steps; each [Append] is the ledger's single serialised write. *)

Inductive outcome :=
| Succeeded
| Failed (e : error).

Inductive pc :=
| Idle
| Holding
| Appended
| Done (o : outcome).

Record CState := mkCState {
  eng : State;
  lock : option nat;
  pcs : list pc
}.

Fixpoint set_nth {A : Type} (l : list A) (i : nat) (x : A) : list A :=
  match l, i with
  | [], _ => []
  | _ :: r, O => x :: r
  | y :: r, S k => y :: set_nth r k x
  end.

Section Concurrent.
Context `{Hasher}.

(** [buyers] lists the buyer of each call, thread [i] buying for
    [nth i buyers ""]; all target credit [cid]. *)
Inductive cstep (cid : nat) (buyers : list string) : CState -> CState -> Prop :=
| c_acquire st i :
    nth_error (pcs st) i = Some Idle -> lock st = None ->
    cstep cid buyers st (mkCState (eng st) (Some i) (set_nth (pcs st) i Holding))
| c_busy st i j :
    nth_error (pcs st) i = Some Idle -> lock st = Some j -> j <> i ->
    cstep cid buyers st (mkCState (eng st) (lock st) (set_nth (pcs st) i (Done (Failed Busy))))
| c_check_fail st i e :
    nth_error (pcs st) i = Some Holding -> lock st = Some i ->
    purchase_check (eng st) cid = Err e ->
    cstep cid buyers st (mkCState (eng st) None (set_nth (pcs st) i (Done (Failed e))))
| c_check_ok st i c now :
    nth_error (pcs st) i = Some Holding -> lock st = Some i ->
    purchase_check (eng st) cid = Ok c ->
    cstep cid buyers st
      (mkCState (snd (purchase_append (eng st) c (nth i buyers "") now)) (Some i)
         (set_nth (pcs st) i Appended))
| c_commit st i :
    nth_error (pcs st) i = Some Appended -> lock st = Some i ->
    cstep cid buyers st
      (mkCState (set_owner (eng st) cid (nth i buyers "")) None
         (set_nth (pcs st) i (Done Succeeded))).

Inductive csteps (cid : nat) (buyers : list string) : CState -> CState -> Prop :=
| cs_refl st : csteps cid buyers st st
| cs_step st1 st2 st3 :
    cstep cid buyers st1 st2 -> csteps cid buyers st2 st3 -> csteps cid buyers st1 st3.

Definition cinit (s0 : State) (buyers : list string) : CState :=
  mkCState s0 None (repeat Idle (length buyers)).

Definition is_done (p : pc) : bool := match p with Done _ => true | _ => false end.
Definition is_ok (p : pc) : bool := match p with Done Succeeded => true | _ => false end.
Definition is_failed (p : pc) : bool :=
  match p with Done (Failed _) => true | _ => false end.
Definition is_holding (p : pc) : bool := match p with Holding => true | _ => false end.
Definition is_appended (p : pc) : bool := match p with Appended => true | _ => false end.

Definition count_pc (f : pc -> bool) (l : list pc) : nat := length (filter f l).

Definition transfers_for (cid : nat) (l : list Transaction.t) : nat :=
  length (filter (fun t => Nat.eqb (Transaction.credit_id t) cid
                           && transaction_type_eqb (Transaction.transaction_type t) Transfer) l).

(** What the design promises for [N] concurrent purchases of credit [cid]
    started from [s0]: once every call has returned, exactly one succeeded,
    every other failed with [AlreadySold] or [Busy], and the ledger holds
    exactly one more [transfer] for [cid]. *)
Definition one_winner (cid : nat) (buyers : list string) (s0 : State) : Prop :=
  forall st, csteps cid buyers (cinit s0 buyers) st ->
    forallb is_done (pcs st) = true ->
    count_pc is_ok (pcs st) = 1 /\
    (forall p, In p (pcs st) ->
       p = Done Succeeded \/ p = Done (Failed AlreadySold) \/ p = Done (Failed Busy)) /\
    transfers_for cid (ledger (eng st)) = S (transfers_for cid (ledger s0)).

(** Invariant of a run of concurrent purchases of [cid], whose producer is
    [prod]: the lock holder is the one call between steps 2 and 4; at most
    one call has appended; the ledger has one new [transfer] per such call;
    the credit is unsold exactly while no call has completed; and a failed
    call means some call got the lock. *)
Definition purchase_inv (cid : nat) (buyers : list string) (s0 : State)
    (prod : string) (st : CState) : Prop :=
  length (pcs st) = length buyers /\
  (forall i, (nth_error (pcs st) i = Some Holding \/ nth_error (pcs st) i = Some Appended)
             <-> lock st = Some i) /\
  (forall p, In p (pcs st) ->
     p = Idle \/ p = Holding \/ p = Appended \/ p = Done Succeeded \/
     p = Done (Failed AlreadySold) \/ p = Done (Failed Busy)) /\
  count_pc is_ok (pcs st) + count_pc is_appended (pcs st) <= 1 /\
  transfers_for cid (ledger (eng st)) =
    transfers_for cid (ledger s0) + (count_pc is_ok (pcs st) + count_pc is_appended (pcs st)) /\
  (exists c, find_credit cid (credits (eng st)) = Some c /\
     Credit.is_retired c = false /\ Credit.producer_id c = prod /\
     (Credit.owner_id c = prod <-> count_pc is_ok (pcs st) = 0)) /\
  (0 < count_pc is_failed (pcs st) ->
   0 < count_pc is_ok (pcs st) + count_pc is_appended (pcs st) + count_pc is_holding (pcs st)).

End Concurrent.

(** A concrete hasher and runtime, used to run the model on examples. *)
Definition demo_hasher : Hasher := {| Hash := fun fs => string_of_list_ascii (repeat "#"%char (length fs)) |}.

Definition demo_dates : DateParser :=
  {| parse_date := fun s => if Nat.eqb (String.length s) 10 then Some 0%Z else None |}.

(** ** Properties of the ledger used by the proofs *)

Section LedgerProps.
Context `{Hasher}.

(** Hash of the ledger's tail, [prev] for an empty ledger. *)
Definition tail_hash (prev : digest) (l : list Transaction.t) : digest :=
  match last_tx l with None => prev | Some t => Transaction.integrity_hash t end.

(** The [prev_hash] that record [j] must carry. *)
Definition expected_prev (prev : digest) (l : list Transaction.t) (j : nat) : digest :=
  match j with
  | O => prev
  | S k => match nth_error l k with
           | Some p => Transaction.integrity_hash p
           | None => prev
           end
  end.

(** Record [j] is present, linked to its predecessor, and its hash is the
    hash of its fields. *)
Definition link_ok (prev : digest) (l : list Transaction.t) (j : nat) : bool :=
  match nth_error l j with
  | None => false
  | Some t => String.eqb (Transaction.prev_hash t) (expected_prev prev l j)
              && String.eqb (Transaction.integrity_hash t) (Hash (tx_fields t))
  end.

Definition retires_for (cid : nat) (l : list Transaction.t) : nat :=
  length (filter (fun t => Nat.eqb (Transaction.credit_id t) cid
                           && transaction_type_eqb (Transaction.transaction_type t) Retire) l).

Definition ts_nondecreasing (l : list Transaction.t) : Prop :=
  forall i j a b, i < j -> nth_error l i = Some a -> nth_error l j = Some b ->
    (Transaction.timestamp a <= Transaction.timestamp b)%Z.

(** Invariant of every reachable engine state. *)
Definition engine_inv (s : State) : Prop :=
  verify_chain (ledger s) = None /\
  (forall n t, nth_error (ledger s) n = Some t -> Transaction.id t = n) /\
  ts_nondecreasing (ledger s) /\
  (forall c, In c (credits s) -> Credit.id c < next_credit_id s) /\
  (forall t, In t (ledger s) -> Transaction.credit_id t < next_credit_id s) /\
  (forall cid c, find_credit cid (credits s) = Some c ->
     retires_for cid (ledger s) = if Credit.is_retired c then 1 else 0) /\
  NoDup (map Credit.id (credits s)).

End LedgerProps.

(** Decimal digits, as [Number] reads them. *)
Fixpoint parse_digits (s : string) (acc : Z) : option Z :=
  match s with
  | EmptyString => Some acc
  | String ch r =>
      let n := Ascii.nat_of_ascii ch in
      if ((48 <=? n) && (n <=? 57))%nat
      then parse_digits r (acc * 10 + Z.of_nat (n - 48))%Z else None
  end.

(** The date-only ISO form [YYYY-MM-DD] with month 01-12 and day 01-28,
    which every JavaScript engine reads as midnight UTC. *)
Definition is_plain_iso_date (s : string) : bool :=
  let dash i := match String.get i s with
                | Some ch => Ascii.eqb ch "-"%char
                | None => false
                end in
  Nat.eqb (String.length s) 10 && dash 4 && dash 7 &&
  match parse_digits (substring 0 4 s) 0, parse_digits (substring 5 2 s) 0,
        parse_digits (substring 8 2 s) 0 with
  | Some _, Some m, Some d => (1 <=? m)%Z && (m <=? 12)%Z && (1 <=? d)%Z && (d <=? 28)%Z
  | _, _, _ => false
  end.

(** A runtime for concrete examples.  [Number] reads decimal digit strings
    (and [""] as 0) and gives [NaN] on anything else; JavaScript also reads
    forms such as ["1.5"] or [" 10"], which no example uses.  [toISOString]
    succeeds on the dates of [is_plain_iso_date] and throws on every other
    string; JavaScript also accepts some other forms (such as ["2024-1-1"]),
    which no example uses, and rejects strings such as ["bad"] as here. *)
Definition demo_runtime : JSRuntime :=
  {| Number := fun s => if String.eqb s "" then Num 0
                        else match parse_digits s 0 with
                             | Some z => Num (inject_Z z)
                             | None => NaN
                             end;
     date_to_iso := fun s => if is_plain_iso_date s
                             then Some (s ++ "T00:00:00.000Z")%string else None |}.

Local Existing Instance demo_hasher.
Local Existing Instance demo_dates.
Local Existing Instance demo_runtime.

(** The state after [producer] mints batch [B1] of 100 units. *)
Definition scenario_minted : State :=
  exec init_state (MintReq "producer" "B1" 100 "2024-01-01" 1).

(** The credit it holds. *)
Definition scenario_credit : Credit.t :=
  Credit.mk 0 "B1" "producer" 100 0 "#####" false "producer".

(* ================================================================== *)
(** ** Sessions, data loading and display helpers of the front end *)

(** [AsyncStorage.getItem] on the store as [storage_after] leaves it:
    [None] is [null], a missing key. *)
Definition getItem (st : list (string * string)) (k : string) : option string :=
  option_map snd (find (fun kv => String.eqb (fst kv) k) st).

(** [checkExistingSession] of the login screen (src/unnamed/part_001) and
    of the role-selection screen (src/frontend/app/index.tsx), the same
    code in both.  [read] is the store, [None] when [getItem] rejects.  The
    boolean is the screen's checking flag after the call ([isCheckingSession],
    resp. [isLoading], initially [true]): it is set to [false], which shows
    the form, unless the call redirects. *)
Definition checkExistingSession (read : option (list (string * string)))
    : list effect * bool :=
  match read with
  | None => ([ConsoleError "Error checking session:"], false)
  | Some st =>
      match getItem st "userRole", getItem st "username" with
      | Some userRole, Some username =>
          if negb (String.eqb userRole "") && negb (String.eqb username "") then
            ([RouterReplace ("/" ++ toLowerCase userRole ++ "-dashboard")], true)
          else ([], false)
      | _, _ => ([], false)
      end
  end.

(** [loadUserData] of the producer and buyer dashboards: the new value of
    [producerId] (resp. [buyerId]), [current] when it is not set. *)
Definition loadUserData (read : option (list (string * string))) (current : string)
    : string * list effect :=
  match read with
  | None => (current, [ConsoleError "Error loading user data:"])
  | Some st =>
      match getItem st "username" with
      | Some username => if String.eqb username "" then (current, []) else (username, [])
      | None => (current, [])
      end
  end.

(** Effects of the data-loading handlers: an [effect] of the handlers
    above, an [axios.get], or [setIsRefreshing]. *)
Inductive fetch_effect :=
| FEffect (e : effect)
| FHttpGet (url : string)
| FSetIsRefreshing (b : bool).

(** [fetchCredits] of the producer dashboard.  [resp] is the outcome of the
    GET ([None] when axios throws, [Some (success, credits)] otherwise);
    returns the effects and the new credit list. *)
Definition fetchCredits {A : Type} (BACKEND_URL : string)
    (read : option (list (string * string))) (resp : option (bool * list A))
    (current : list A) : list fetch_effect * list A :=
  let '(es, cs) :=
    match read with
    | None =>
        ([FEffect (ConsoleError "Error fetching credits:");
          FEffect (ShowAlert "Error" "Failed to fetch credits")], current)
    | Some st =>
        match getItem st "username" with
        | None => ([], current)
        | Some username =>
            if String.eqb username "" then ([], current)
            else
              let get := FHttpGet (BACKEND_URL ++ "/api/producer/" ++ username ++ "/credits") in
              match resp with
              | Some (true, credits) => ([get], credits)
              | Some (false, _) => ([get], current)
              | None =>
                  ([get; FEffect (ConsoleError "Error fetching credits:");
                    FEffect (ShowAlert "Error" "Failed to fetch credits")], current)
              end
        end
    end in
  (FSetIsRefreshing true :: es ++ [FSetIsRefreshing false], cs).


(** The [OK] button of the producer dashboard's mint-success alert: it
    clears the three form fields, then runs [fetchCredits] ([read] and
    [resp] as there), whose result becomes the displayed credit list. *)
Definition mintSuccessOk (BACKEND_URL : string) (v : ProducerView)
    (read : option (list (string * string))) (resp : option (bool * list Credit.t))
    : list fetch_effect * ProducerView :=
  let '(es, cs) := fetchCredits BACKEND_URL read resp (shown_credits v) in
  (es, mkProducerView "" "" "" cs (isLoading v) (producerId v)).

(** The buttons of the buyer dashboard's confirmation alert. *)
Inductive confirm_choice := ChooseCancel | ChoosePurchase.

Section PurchaseDialog.
(** [String(credit.units)], JavaScript's number formatting. *)
Variable num_to_string : Q -> string.

(** [handlePurchaseCredit] of the buyer dashboard: the confirmation
    alert, then what the chosen button runs. *)
Definition handlePurchaseCredit (BACKEND_URL buyerId : string) (credit : Credit.t)
    (producer_name : option string) (choice : confirm_choice)
    (resp : option (bool * string)) : list effect :=
  let name := match producer_name with
              | Some n => if String.eqb n "" then "Producer" else n
              | None => "Producer"
              end in
  ShowAlert "Confirm Purchase"
    ("Purchase " ++ num_to_string (Credit.units credit) ++ " kg H₂ from " ++ name ++ "?") ::
  match choice with
  | ChooseCancel => []
  | ChoosePurchase => executePurchase BACKEND_URL buyerId credit resp
  end.

End PurchaseDialog.

(** [getTransactionTypeColor] of the regulator dashboard. *)
Definition getTransactionTypeColor (type : string) : string :=
  if String.eqb type "mint" then "#10b981"
  else if String.eqb type "transfer" then "#3b82f6"
  else if String.eqb type "retire" then "#f59e0b"
  else "#64748b".

(** [getTransactionTypeIcon] of the regulator dashboard. *)
Definition getTransactionTypeIcon (type : string) : string :=
  if String.eqb type "mint" then "🏭"
  else if String.eqb type "transfer" then "💸"
  else if String.eqb type "retire" then "♻️"
  else "📋".

(** An effect that turns the loading spinner on. *)
Definition is_loading_on (e : effect) : bool :=
  match e with SetIsLoading true => true | _ => false end.

(** Timestamps non-increasing along the list: newest first. *)
Definition newest_first (a b : Transaction.t) : Prop :=
  (Transaction.timestamp b <= Transaction.timestamp a)%Z.

(* ================================================================== *)
(** * Proofs *)

(** ** Lists updated by index *)

Lemma length_set_nth {A : Type} (l : list A) i x :
  length (set_nth l i x) = length l.
Proof. revert i; induction l as [|y r IH]; intros [|i]; simpl; auto. Qed.

Lemma nth_error_set_nth_eq {A : Type} (l : list A) i x y :
  nth_error l i = Some y -> nth_error (set_nth l i x) i = Some x.
Proof.
  revert i; induction l as [|z r IH]; intros [|i] Hi; simpl in *; try discriminate; auto.
Qed.

Lemma nth_error_set_nth_ne {A : Type} (l : list A) i j x :
  i <> j -> nth_error (set_nth l i x) j = nth_error l j.
Proof.
  revert i j; induction l as [|z r IH]; intros [|i] [|j] Hij; simpl; auto; try lia.
Qed.

Lemma in_set_nth {A : Type} (l : list A) i x p :
  In p (set_nth l i x) -> p = x \/ In p l.
Proof.
  revert i; induction l as [|z r IH]; intros [|i]; simpl; auto.
  - intros [<-|H]; auto.
  - intros [<-|H]; auto. destruct (IH i H); auto.
Qed.

Lemma count_set_nth (f : pc -> bool) l i x y :
  nth_error l i = Some y ->
  count_pc f (set_nth l i x) + (if f y then 1 else 0) =
  count_pc f l + (if f x then 1 else 0).
Proof.
  unfold count_pc. revert i; induction l as [|z r IH]; intros [|i] Hi;
    simpl in *; try discriminate.
  - inversion Hi; subst. destruct (f x), (f y); simpl; lia.
  - specialize (IH i Hi). destruct (f z); simpl; lia.
Qed.

Lemma count_pos (f : pc -> bool) l i y :
  nth_error l i = Some y -> f y = true -> 0 < count_pc f l.
Proof.
  unfold count_pc. revert i; induction l as [|z r IH]; intros [|i] Hi Hf;
    simpl in *; try discriminate.
  - inversion Hi; subst. rewrite Hf. simpl. lia.
  - specialize (IH i Hi Hf). destruct (f z); simpl; lia.
Qed.

Lemma count_pos_inv (f : pc -> bool) l :
  0 < count_pc f l -> exists i y, nth_error l i = Some y /\ f y = true.
Proof.
  unfold count_pc. induction l as [|z r IH]; simpl; intros Hc; [lia|].
  destruct (f z) eqn:Hz.
  - exists 0, z. auto.
  - destruct (IH Hc) as (i & y & Hi & Hy). exists (S i), y. auto.
Qed.

Lemma count_zero_all (f : pc -> bool) l :
  (forall p, In p l -> f p = false) -> count_pc f l = 0.
Proof.
  unfold count_pc. induction l as [|z r IH]; simpl; intros Hall; auto.
  rewrite (Hall z (or_introl eq_refl)). apply IH. auto.
Qed.

Lemma count_ok_failed_done l :
  forallb is_done l = true ->
  count_pc is_ok l + count_pc is_failed l = length l.
Proof.
  unfold count_pc. induction l as [|p r IH]; simpl; intros Hd; auto.
  apply andb_true_iff in Hd as [Hp Hr]. specialize (IH Hr).
  destruct p as [| | |[|e]]; simpl in *; try discriminate; lia.
Qed.

Lemma nth_error_in_length {A : Type} (l : list A) (m : list string) i y :
  nth_error l i = Some y -> length l = length m -> In (nth i m "") m.
Proof.
  intros Hi Hlen. apply nth_In. rewrite <- Hlen. apply nth_error_Some. congruence.
Qed.

(** ** The credit store *)

Lemma find_credit_update cid f cs :
  (forall c, Credit.id (f c) = Credit.id c) ->
  find_credit cid (update_credit cid f cs) = option_map f (find_credit cid cs).
Proof.
  intros Hf. unfold find_credit, update_credit.
  induction cs as [|c r IH]; simpl; auto.
  destruct (Nat.eqb (Credit.id c) cid) eqn:E.
  - rewrite Hf, E. reflexivity.
  - rewrite E. exact IH.
Qed.

Lemma find_credit_id cid cs c :
  find_credit cid cs = Some c -> Credit.id c = cid.
Proof.
  unfold find_credit. intros Hf. apply find_some in Hf as [_ Hf].
  apply Nat.eqb_eq. exact Hf.
Qed.

Lemma find_credit_app cid cs c x :
  find_credit cid cs = Some c -> find_credit cid (cs ++ [x]) = Some c.
Proof.
  unfold find_credit. induction cs as [|y r IH]; simpl; [discriminate|].
  destruct (Nat.eqb (Credit.id y) cid); auto.
Qed.

(** ** The ledger's append *)

Section Ledger.
Context `{Hasher}.

Lemma append_snd ty cid from to u now l :
  snd (append ty cid from to u now l) = l ++ [fst (append ty cid from to u now l)].
Proof. unfold append. destruct (last_tx l); reflexivity. Qed.

Lemma append_fst_credit ty cid from to u now l :
  Transaction.credit_id (fst (append ty cid from to u now l)) = cid.
Proof. unfold append. destruct (last_tx l); reflexivity. Qed.

Lemma append_fst_type ty cid from to u now l :
  Transaction.transaction_type (fst (append ty cid from to u now l)) = ty.
Proof. unfold append. destruct (last_tx l); reflexivity. Qed.

Lemma transfers_for_app cid l t :
  transfers_for cid (l ++ [t]) =
  transfers_for cid l +
  (if Nat.eqb (Transaction.credit_id t) cid
      && transaction_type_eqb (Transaction.transaction_type t) Transfer then 1 else 0).
Proof.
  unfold transfers_for. rewrite filter_app, length_app. simpl.
  destruct (_ && _); reflexivity.
Qed.

Lemma purchase_append_eq s c b now :
  purchase_append s c b now =
  (fst (append Transfer (Credit.id c) (Credit.owner_id c) b (Credit.units c) now (ledger s)),
   set_ledger s (snd (append Transfer (Credit.id c) (Credit.owner_id c) b (Credit.units c) now (ledger s)))).
Proof. unfold purchase_append. destruct (append _ _ _ _ _ _ _); reflexivity. Qed.

Lemma purchase_check_ok s cid c :
  purchase_check s cid = Ok c ->
  find_credit cid (credits s) = Some c /\ Credit.is_retired c = false /\
  Credit.owner_id c = Credit.producer_id c.
Proof.
  unfold purchase_check. destruct (find_credit cid (credits s)) as [c'|]; [|discriminate].
  destruct (Credit.is_retired c') eqn:R; [discriminate|].
  destruct (String.eqb (Credit.owner_id c') (Credit.producer_id c')) eqn:E; simpl;
    [|discriminate].
  intros Hc; inversion Hc; subst. apply String.eqb_eq in E. auto.
Qed.

End Ledger.

(** ** Concurrent purchases of one credit *)

Section PurchaseRace.
Context `{Hasher}.
Variables (cid : nat) (buyers : list string) (s0 : State) (prod : string).
Hypothesis buyers_not_producer : forall b, In b buyers -> b <> prod.

Lemma purchase_inv_init c :
  find_credit cid (credits s0) = Some c -> Credit.is_retired c = false ->
  Credit.owner_id c = prod -> Credit.producer_id c = prod ->
  purchase_inv cid buyers s0 prod (cinit s0 buyers).
Proof.
  intros Hf Hr Ho Hp. unfold cinit, purchase_inv; simpl.
  assert (Hid : forall p, In p (repeat Idle (length buyers)) -> p = Idle)
    by (intros p Hin; apply repeat_spec in Hin; exact Hin).
  assert (Hz : forall f : pc -> bool, f Idle = false ->
                 count_pc f (repeat Idle (length buyers)) = 0).
  { intros f Hf0. apply count_zero_all. intros p Hin. rewrite (Hid p Hin). exact Hf0. }
  rewrite !Hz by reflexivity.
  repeat split.
  - apply repeat_length.
  - intros [Hi|Hi]; apply nth_error_In, Hid in Hi; discriminate.
  - discriminate.
  - intros p Hin. left. auto.
  - lia.
  - lia.
  - exists c. repeat split; auto.
  - intros Hc. lia.
Qed.

Ltac pc_counts Hi x :=
  pose proof (count_set_nth is_ok _ _ x _ Hi);
  pose proof (count_set_nth is_appended _ _ x _ Hi);
  pose proof (count_set_nth is_holding _ _ x _ Hi);
  pose proof (count_set_nth is_failed _ _ x _ Hi);
  simpl in *.

(** At most one call is between steps 2 and 4: the lock holder. *)
Lemma holder_unique st i j :
  (forall k, (nth_error (pcs st) k = Some Holding \/ nth_error (pcs st) k = Some Appended)
             <-> lock st = Some k) ->
  lock st = Some i -> nth_error (pcs st) j = Some Appended -> j = i.
Proof.
  intros Hlock Hl Hj. assert (lock st = Some j) by (apply Hlock; auto). congruence.
Qed.

Lemma no_appended_while_holding st i :
  (forall k, (nth_error (pcs st) k = Some Holding \/ nth_error (pcs st) k = Some Appended)
             <-> lock st = Some k) ->
  lock st = Some i -> nth_error (pcs st) i = Some Holding ->
  count_pc is_appended (pcs st) = 0.
Proof.
  intros Hlock Hl Hi.
  destruct (count_pc is_appended (pcs st)) eqn:E; auto.
  destruct (count_pos_inv is_appended (pcs st)) as (j & y & Hj & Hy); [lia|].
  destruct y; try discriminate.
  pose proof (holder_unique st i j Hlock Hl Hj). subst. congruence.
Qed.

Ltac inv_split :=
  refine (conj _ (conj _ (conj _ (conj _ (conj _ (conj _ _)))))).

Lemma purchase_inv_step st st' :
  purchase_inv cid buyers s0 prod st -> cstep cid buyers st st' ->
  purchase_inv cid buyers s0 prod st'.
Proof.
  intros (Hlen & Hlock & Hout & Hle & Htr & (c & Hfind & Hret & Hprod & Hown) & Hfail) Hs.
  destruct Hs as [st i Hi Hl|st i j Hi Hl Hji|st i e Hi Hl Hck|st i c' now Hi Hl Hck|st i Hi Hl];
    unfold purchase_inv; simpl.
  - (* acquire *)
    pc_counts Hi Holding.
    inv_split.
    + rewrite length_set_nth; auto.
    + intros k; split.
      * intros [Hk|Hk]; destruct (Nat.eq_dec i k); subst; auto;
          rewrite nth_error_set_nth_ne in Hk by auto;
          assert (lock st = Some k) by (apply Hlock; auto); congruence.
      * intros Hk. inversion Hk; subst. left. eapply nth_error_set_nth_eq; eauto.
    + intros p Hin. apply in_set_nth in Hin as [->|Hin]; [|apply Hout; exact Hin].
      repeat (first [left; reflexivity | right]); reflexivity.
    + lia.
    + lia.
    + exists c. split; [|split; [|split]]; auto. rewrite Hown. split; intros; lia.
    + intros _. lia.
  - (* busy *)
    pc_counts Hi (Done (Failed Busy)).
    assert (Hj : 0 < count_pc is_holding (pcs st) + count_pc is_appended (pcs st)).
    { destruct (proj2 (Hlock j) Hl) as [Hj|Hj].
      - pose proof (count_pos is_holding _ _ _ Hj eq_refl). lia.
      - pose proof (count_pos is_appended _ _ _ Hj eq_refl). lia. }
    inv_split.
    + rewrite length_set_nth; auto.
    + intros k; split.
      * intros [Hk|Hk]; destruct (Nat.eq_dec i k); subst;
          try (erewrite nth_error_set_nth_eq in Hk by eauto; discriminate);
          rewrite nth_error_set_nth_ne in Hk by auto; apply Hlock; auto.
      * intros Hk. destruct (Nat.eq_dec i k); [subst; congruence|].
        rewrite !nth_error_set_nth_ne by auto. apply Hlock; auto.
    + intros p Hin. apply in_set_nth in Hin as [->|Hin]; [|apply Hout; exact Hin].
      repeat (first [left; reflexivity | right]); reflexivity.
    + lia.
    + lia.
    + exists c. split; [|split; [|split]]; auto. rewrite Hown. split; intros; lia.
    + intros _. lia.
  - (* validation fails: the credit was already sold *)
    pose proof (no_appended_while_holding st i Hlock Hl Hi) as Happ.
    assert (Hsold : count_pc is_ok (pcs st) = 1 /\ e = AlreadySold).
    { unfold purchase_check in Hck. rewrite Hfind, Hret in Hck.
      destruct (String.eqb (Credit.owner_id c) (Credit.producer_id c)) eqn:E;
        simpl in Hck; inversion Hck; subst.
      split; auto.
      destruct (count_pc is_ok (pcs st)) eqn:Eok; [|lia].
      rewrite (proj2 Hown eq_refl), String.eqb_refl in E. discriminate. }
    destruct Hsold as [Hok ->].
    pc_counts Hi (Done (Failed AlreadySold)).
    inv_split.
    + rewrite length_set_nth; auto.
    + intros k; split.
      * intros [Hk|Hk]; destruct (Nat.eq_dec i k); subst;
          try (erewrite nth_error_set_nth_eq in Hk by eauto; discriminate);
          rewrite nth_error_set_nth_ne in Hk by auto;
          assert (lock st = Some k) by (apply Hlock; auto); congruence.
      * discriminate.
    + intros p Hin. apply in_set_nth in Hin as [->|Hin]; [|apply Hout; exact Hin].
      repeat (first [left; reflexivity | right]); reflexivity.
    + lia.
    + lia.
    + exists c. split; [|split; [|split]]; auto. rewrite Hown. split; intros; lia.
    + intros _. lia.
  - (* validation passes; the transfer is appended *)
    pose proof (no_appended_while_holding st i Hlock Hl Hi) as Happ.
    apply purchase_check_ok in Hck as (Hf' & Hr' & Ho').
    rewrite Hfind in Hf'. inversion Hf'; subst c'.
    assert (Hok : count_pc is_ok (pcs st) = 0) by (apply Hown; congruence).
    pc_counts Hi Appended.
    rewrite purchase_append_eq. simpl.
    inv_split.
    + rewrite length_set_nth; auto.
    + intros k; split.
      * intros [Hk|Hk]; destruct (Nat.eq_dec i k); subst; auto;
          rewrite nth_error_set_nth_ne in Hk by auto;
          assert (lock st = Some k) by (apply Hlock; auto); congruence.
      * intros Hk. inversion Hk; subst. right. eapply nth_error_set_nth_eq; eauto.
    + intros p Hin. apply in_set_nth in Hin as [->|Hin]; [|apply Hout; exact Hin].
      repeat (first [left; reflexivity | right]); reflexivity.
    + lia.
    + rewrite append_snd, transfers_for_app, append_fst_credit, append_fst_type.
      rewrite (find_credit_id _ _ _ Hfind), Nat.eqb_refl. simpl. lia.
    + exists c. split; [|split; [|split]]; auto. rewrite Hown. split; intros; lia.
    + intros _. lia.
  - (* commit: owner set, lock released *)
    assert (Happ : 0 < count_pc is_appended (pcs st))
      by exact (count_pos is_appended _ _ _ Hi eq_refl).
    pc_counts Hi (Done Succeeded).
    assert (Hbuyer : nth i buyers "" <> prod)
      by (apply buyers_not_producer; eapply nth_error_in_length; eauto).
    inv_split.
    + rewrite length_set_nth; auto.
    + intros k; split.
      * intros [Hk|Hk]; destruct (Nat.eq_dec i k); subst;
          try (erewrite nth_error_set_nth_eq in Hk by eauto; discriminate);
          rewrite nth_error_set_nth_ne in Hk by auto;
          assert (lock st = Some k) by (apply Hlock; auto); congruence.
      * discriminate.
    + intros p Hin. apply in_set_nth in Hin as [->|Hin]; [|apply Hout; exact Hin].
      repeat (first [left; reflexivity | right]); reflexivity.
    + lia.
    + lia.
    + exists (with_owner (nth i buyers "") c). unfold set_owner, set_credits. simpl.
      rewrite find_credit_update by reflexivity. rewrite Hfind.
      split; [reflexivity|split; [|split]]; simpl; auto. split; intros; [congruence|lia].
    + intros _. lia.
Qed.

Lemma purchase_inv_steps st st' :
  purchase_inv cid buyers s0 prod st -> csteps cid buyers st st' ->
  purchase_inv cid buyers s0 prod st'.
Proof.
  intros Hinv Hs. induction Hs as [st|st1 st2 st3 H12 H23 IH]; auto.
  apply IH. eapply purchase_inv_step; eauto.
Qed.

End PurchaseRace.

(** ** Claims *)

(** C1.  For a credit that is unsold and unretired, and [N >= 1]
    concurrent [PurchaseCredit] calls on it none of which buys for the
    credit's own producer: in every interleaving, once all calls have
    returned, exactly one succeeded, each other one failed with
    [AlreadySold] or [Busy], and exactly one [transfer] for the credit was
    appended to the ledger.  (Without that condition the guarantee fails,
    see [C1_self_purchase_two_winners].) *)
Theorem C1_purchase_race_one_winner `{Hasher} (cid : nat) (buyers : list string)
    (s0 : State) (c : Credit.t) :
  find_credit cid (credits s0) = Some c ->
  Credit.is_retired c = false ->
  Credit.owner_id c = Credit.producer_id c ->
  buyers <> [] ->
  (forall b, In b buyers -> b <> Credit.producer_id c) ->
  one_winner cid buyers s0.
Proof.
  intros Hf Hr Ho Hne Hb st Hs Hdone.
  assert (Hinv : purchase_inv cid buyers s0 (Credit.producer_id c) st).
  { eapply purchase_inv_steps; [exact Hb| |exact Hs].
    eapply purchase_inv_init; eauto. }
  destruct Hinv as (Hlen & Hlock & Hout & Hle & Htr & _ & Hfail).
  assert (Hnot : forall f : pc -> bool, (forall p, is_done p = true -> f p = false) ->
                   count_pc f (pcs st) = 0).
  { intros f Hf0. apply count_zero_all. intros p Hin. apply Hf0.
    rewrite forallb_forall in Hdone. auto. }
  assert (Hh : count_pc is_holding (pcs st) = 0) by (apply Hnot; intros [] ?; easy).
  assert (Ha : count_pc is_appended (pcs st) = 0) by (apply Hnot; intros [] ?; easy).
  pose proof (count_ok_failed_done _ Hdone) as Hsum.
  assert (Hn : 0 < length buyers) by (destruct buyers; simpl; [congruence|lia]).
  assert (Hok : count_pc is_ok (pcs st) = 1).
  { destruct (count_pc is_failed (pcs st)) eqn:Ef.
    - lia.
    - specialize (Hfail ltac:(lia)). lia. }
  split; [exact Hok|split].
  - intros p Hin. rewrite forallb_forall in Hdone. specialize (Hdone p Hin).
    destruct (Hout p Hin) as [->|[->|[->|Hp]]]; try discriminate; exact Hp.
  - rewrite Htr, Hok, Ha. lia.
Qed.

Lemma C1_purchase_race_witness : one_winner 0 ["buyer"; "buyer2"] scenario_minted.
Proof.
  apply (C1_purchase_race_one_winner 0 ["buyer"; "buyer2"] scenario_minted
           scenario_credit).
  - reflexivity.
  - reflexivity.
  - reflexivity.
  - discriminate.
  - intros b [<-|[<-|[]]]; discriminate.
Defined.

(** C1 fails on a self-purchase: the producer itself may call
    [PurchaseCredit] on its unsold credit.  The transfer leaves
    [owner_id = producer_id], so the [owner_id <> producer_id] check, which
    is meant to stop a second sale, lets a second buyer win as well: two
    calls succeed and two [transfer]s are appended, against the
    at-most-one-winner guarantee. *)
Lemma C1_self_purchase_two_winners : ~ one_winner 0 ["producer"; "buyer"] scenario_minted.
Proof.
  intros Hw.
  assert (exists st, csteps 0 ["producer"; "buyer"] (cinit scenario_minted ["producer"; "buyer"]) st
                     /\ forallb is_done (pcs st) = true /\ count_pc is_ok (pcs st) = 2)
    as (st & Hs & Hd & Hc).
  { eexists. split; [|split].
    - eapply cs_step; [apply (c_acquire _ _ _ 0); reflexivity|].
      eapply cs_step; [apply (c_check_ok _ _ _ 0 scenario_credit 2%Z); reflexivity|].
      eapply cs_step; [apply (c_commit _ _ _ 0); reflexivity|].
      eapply cs_step; [apply (c_acquire _ _ _ 1); reflexivity|].
      eapply cs_step; [apply (c_check_ok _ _ _ 1 scenario_credit 3%Z); reflexivity|].
      eapply cs_step; [apply (c_commit _ _ _ 1); reflexivity|].
      apply cs_refl.
    - reflexivity.
    - reflexivity. }
  destruct (Hw st Hs Hd) as [Hone _]. rewrite Hc in Hone. discriminate.
Qed.

(** ** The hash chain *)

Section Chain.
Context `{Hasher}.

Lemma last_tx_cons t l :
  last_tx (t :: l) = match last_tx l with None => Some t | Some x => Some x end.
Proof.
  revert t; induction l as [|t' r IH]; intros t; [reflexivity|].
  change (last_tx (t :: t' :: r)) with (last_tx (t' :: r)).
  rewrite IH. destruct (last_tx r); reflexivity.
Qed.

Lemma last_tx_app l t : last_tx (l ++ [t]) = Some t.
Proof.
  induction l as [|x r IH]; [reflexivity|].
  simpl app. rewrite last_tx_cons, IH. reflexivity.
Qed.

Lemma last_tx_nth l : last_tx l = nth_error l (length l - 1).
Proof.
  induction l as [|t r IH]; [reflexivity|].
  rewrite last_tx_cons, IH. destruct r as [|t' r']; [reflexivity|].
  simpl length. replace (S (S (length r')) - 1) with (S (length r')) by lia.
  replace (S (length r') - 1) with (length r') by lia.
  simpl. destruct (nth_error (t' :: r') (length r')) eqn:E; auto.
  exfalso. apply nth_error_None in E. simpl in E. lia.
Qed.

Lemma tail_hash_cons prev t l :
  tail_hash prev (t :: l) = tail_hash (Transaction.integrity_hash t) l.
Proof. unfold tail_hash. rewrite last_tx_cons. destruct (last_tx l); reflexivity. Qed.

Lemma verify_from_app prev i l r :
  verify_from prev i (l ++ r) =
  match verify_from prev i l with
  | None => verify_from (tail_hash prev l) (i + length l) r
  | Some k => Some k
  end.
Proof.
  revert prev i; induction l as [|t l IH]; intros prev i.
  - simpl. rewrite Nat.add_0_r. reflexivity.
  - change ((t :: l) ++ r) with (t :: (l ++ r)).
    cbn [verify_from].
    destruct (String.eqb _ _ && String.eqb _ _); [|reflexivity].
    rewrite IH, tail_hash_cons. replace (i + length (t :: l)) with (S i + length l) by (simpl; lia).
    reflexivity.
Qed.

Lemma link_ok_cons_0 prev t r :
  link_ok prev (t :: r) 0 =
  String.eqb (Transaction.prev_hash t) prev
  && String.eqb (Transaction.integrity_hash t) (Hash (tx_fields t)).
Proof. reflexivity. Qed.

Lemma link_ok_cons_S prev t r j :
  link_ok prev (t :: r) (S j) = link_ok (Transaction.integrity_hash t) r j.
Proof.
  unfold link_ok. simpl nth_error at 1. destruct (nth_error r j) as [x|] eqn:Ej; [|reflexivity].
  destruct j as [|k]; [reflexivity|]. simpl.
  destruct (nth_error r k) eqn:Ek; [reflexivity|].
  apply nth_error_None in Ek. assert (nth_error r (S k) <> None) by congruence.
  apply nth_error_Some in H0. lia.
Qed.

Lemma verify_from_none prev i l :
  verify_from prev i l = None <-> (forall j, j < length l -> link_ok prev l j = true).
Proof.
  revert prev i; induction l as [|t r IH]; intros prev i; simpl.
  - split; auto. intros _ j Hj. lia.
  - destruct (String.eqb _ _ && String.eqb _ _) eqn:E.
    + rewrite IH. split.
      * intros Hr [|j] Hj; [rewrite link_ok_cons_0; exact E|].
        rewrite link_ok_cons_S. apply Hr. lia.
      * intros Hall j Hj. rewrite <- link_ok_cons_S with (prev := prev). apply Hall. lia.
    + split; [discriminate|]. intros Hall. specialize (Hall 0 ltac:(lia)).
      rewrite link_ok_cons_0, E in Hall. discriminate.
Qed.

Lemma verify_from_some prev i l k :
  verify_from prev i l = Some k ->
  exists m, k = i + m /\ m < length l /\ link_ok prev l m = false /\
            (forall j, j < m -> link_ok prev l j = true).
Proof.
  revert prev i; induction l as [|t r IH]; intros prev i; simpl; [discriminate|].
  destruct (String.eqb _ _ && String.eqb _ _) eqn:E.
  - intros Hv. destruct (IH _ _ Hv) as (m & -> & Hm & Hb & Hok).
    exists (S m). split; [lia|split; [simpl; lia|split]].
    + rewrite link_ok_cons_S. exact Hb.
    + intros [|j] Hj; [rewrite link_ok_cons_0; exact E|].
      rewrite link_ok_cons_S. apply Hok. lia.
  - intros Hv. inversion Hv; subst. exists 0.
    split; [lia|split; [simpl; lia|split; [rewrite link_ok_cons_0; exact E|intros j Hj; lia]]].
Qed.

Lemma append_spec ty cid from to u now l :
  let t := fst (append ty cid from to u now l) in
  snd (append ty cid from to u now l) = l ++ [t] /\
  Transaction.id t = length l /\
  Transaction.credit_id t = cid /\
  Transaction.transaction_type t = ty /\
  Transaction.units t = u /\
  Transaction.prev_hash t = tail_hash genesis l /\
  Transaction.integrity_hash t = Hash (tx_fields t) /\
  Transaction.timestamp t =
    match last_tx l with
    | None => now
    | Some p => if (now <? Transaction.timestamp p)%Z
                then (Transaction.timestamp p + 1)%Z else now
    end.
Proof.
  unfold append, tail_hash. destruct (last_tx l); simpl; repeat split; reflexivity.
Qed.

Lemma append_verify ty cid from to u now l :
  verify_chain l = None -> verify_chain (snd (append ty cid from to u now l)) = None.
Proof.
  destruct (append_spec ty cid from to u now l) as (Hsnd & _ & _ & _ & _ & Hprev & Hint & _).
  set (t := fst (append ty cid from to u now l)) in *.
  intros Hl. rewrite Hsnd. unfold verify_chain in *. rewrite verify_from_app, Hl.
  simpl. rewrite Hprev, Hint, !String.eqb_refl. reflexivity.
Qed.

Lemma append_ids ty cid from to u now l :
  (forall n t, nth_error l n = Some t -> Transaction.id t = n) ->
  forall n t, nth_error (snd (append ty cid from to u now l)) n = Some t ->
    Transaction.id t = n.
Proof.
  destruct (append_spec ty cid from to u now l) as (Hsnd & Hid & _).
  intros Hl n x. rewrite Hsnd, nth_error_app.
  destruct (Nat.ltb n (length l)) eqn:E; [apply Hl|].
  apply Nat.ltb_ge in E. destruct (n - length l) eqn:E2; simpl; [|destruct n0; discriminate].
  intros Hx. inversion Hx; subst. rewrite Hid. lia.
Qed.

Lemma append_ts ty cid from to u now l :
  ts_nondecreasing l -> ts_nondecreasing (snd (append ty cid from to u now l)).
Proof.
  destruct (append_spec ty cid from to u now l) as (Hsnd & _ & _ & _ & _ & _ & _ & Hts).
  set (t := fst (append ty cid from to u now l)) in *.
  intros Hl. rewrite Hsnd. intros i j a b Hij Ha Hb.
  rewrite nth_error_app in Ha, Hb.
  destruct (Nat.ltb j (length l)) eqn:Ej.
  - apply Nat.ltb_lt in Ej. assert (Ei : Nat.ltb i (length l) = true) by (apply Nat.ltb_lt; lia).
    rewrite Ei in Ha. exact (Hl i j a b Hij Ha Hb).
  - apply Nat.ltb_ge in Ej. destruct (j - length l) as [|k] eqn:Ejk;
      [|destruct k; discriminate]. simpl in Hb. inversion Hb; subst b.
    destruct (Nat.ltb i (length l)) eqn:Ei.
    + apply Nat.ltb_lt in Ei.
      rewrite last_tx_nth in Hts.
      destruct (nth_error l (length l - 1)) as [p|] eqn:Ep.
      * assert (Hap : (Transaction.timestamp a <= Transaction.timestamp p)%Z).
        { destruct (Nat.eq_dec i (length l - 1)) as [->|Hne].
          - rewrite Ha in Ep. inversion Ep; subst. lia.
          - eapply (Hl i (length l - 1)); eauto. lia. }
        rewrite Hts. destruct (Z.ltb_spec now (Transaction.timestamp p)); lia.
      * apply nth_error_None in Ep. lia.
    + apply Nat.ltb_ge in Ei. lia.
Qed.

End Chain.

(** ** The credit store under updates *)

Lemma find_credit_update_gen cid cid' f cs :
  (forall c, Credit.id (f c) = Credit.id c) ->
  find_credit cid' (update_credit cid f cs) =
  option_map (fun c => if Nat.eqb (Credit.id c) cid then f c else c) (find_credit cid' cs).
Proof.
  intros Hf. unfold find_credit, update_credit.
  induction cs as [|c r IH]; simpl; auto.
  destruct (Nat.eqb (Credit.id c) cid) eqn:E.
  - rewrite Hf. destruct (Nat.eqb (Credit.id c) cid'); simpl; [rewrite E; reflexivity|exact IH].
  - destruct (Nat.eqb (Credit.id c) cid'); simpl; [rewrite E; reflexivity|exact IH].
Qed.

Lemma find_credit_in cid cs c : find_credit cid cs = Some c -> In c cs.
Proof. unfold find_credit. intros Hf. apply find_some in Hf. tauto. Qed.

Lemma find_credit_app_inv cid cs x c :
  find_credit cid (cs ++ [x]) = Some c ->
  find_credit cid cs = Some c \/ (find_credit cid cs = None /\ c = x /\ Credit.id x = cid).
Proof.
  unfold find_credit. induction cs as [|y r IH]; simpl.
  - destruct (Nat.eqb (Credit.id x) cid) eqn:E; [|discriminate].
    intros Hc; inversion Hc; subst. right. split; auto. split; auto. apply Nat.eqb_eq; auto.
  - destruct (Nat.eqb (Credit.id y) cid); auto.
Qed.

Lemma find_credit_none_lt cid cs :
  (forall c, In c cs -> Credit.id c < cid) -> find_credit cid cs = None.
Proof.
  unfold find_credit. induction cs as [|y r IH]; simpl; intros Hlt; auto.
  destruct (Nat.eqb (Credit.id y) cid) eqn:E.
  - apply Nat.eqb_eq in E. specialize (Hlt y (or_introl eq_refl)). lia.
  - apply IH. auto.
Qed.

Lemma in_update_credit cid f cs c :
  (forall c, Credit.id (f c) = Credit.id c) ->
  In c (update_credit cid f cs) -> exists c0, In c0 cs /\ Credit.id c = Credit.id c0.
Proof.
  intros Hf Hin. unfold update_credit in Hin. apply in_map_iff in Hin as (c0 & Hc & Hin).
  exists c0. split; auto. subst. destruct (Nat.eqb _ _); auto.
Qed.

Lemma map_id_update cid f cs :
  (forall c, Credit.id (f c) = Credit.id c) ->
  map Credit.id (update_credit cid f cs) = map Credit.id cs.
Proof.
  intros Hf. unfold update_credit. rewrite map_map. apply map_ext.
  intros c. destruct (Nat.eqb _ _); auto.
Qed.

Lemma find_credit_nodup cs c :
  NoDup (map Credit.id cs) -> In c cs -> find_credit (Credit.id c) cs = Some c.
Proof.
  unfold find_credit. induction cs as [|y r IH]; simpl; [tauto|].
  intros Hnd [<-|Hin]; [rewrite Nat.eqb_refl; reflexivity|].
  inversion Hnd as [|? ? Hy Hr]; subst.
  destruct (Nat.eqb (Credit.id y) (Credit.id c)) eqn:E.
  - apply Nat.eqb_eq in E. exfalso. apply Hy. rewrite E. apply in_map. exact Hin.
  - apply IH; auto.
Qed.

(** ** Engine steps *)

Section EngineSteps.
Context `{Hasher} `{DateParser}.

Lemma mint_credit_ok s p b u d now c t s' :
  mint_credit s p b u d now = Ok (c, t, s') ->
  Qle_bool u 0 = false /\
  (exists dd, parse_date d = Some dd /\
     c = Credit.mk (next_credit_id s) b p u dd
           (Hash (credit_fields (next_credit_id s) p b u dd)) false p) /\
  t = fst (append Mint (next_credit_id s) "" p u now (ledger s)) /\
  s' = mkState (credits s ++ [c]) (snd (append Mint (next_credit_id s) "" p u now (ledger s)))
         (S (next_credit_id s)).
Proof.
  unfold mint_credit, mint. destruct (Qle_bool u 0) eqn:Hu; [discriminate|].
  destruct (parse_date d) as [dd|] eqn:Hd; [|discriminate].
  rewrite (surjective_pairing (append _ _ _ _ _ _ _)). simpl.
  intros Hok; inversion Hok; subst. split; auto. split; [exists dd; auto|]. auto.
Qed.

Lemma purchase_credit_ok s cid b now t s' :
  purchase_credit s cid b now = Ok (t, s') ->
  exists c, find_credit cid (credits s) = Some c /\ Credit.is_retired c = false /\
    Credit.owner_id c = Credit.producer_id c /\
    t = fst (append Transfer cid (Credit.owner_id c) b (Credit.units c) now (ledger s)) /\
    s' = mkState (update_credit cid (with_owner b) (credits s))
           (snd (append Transfer cid (Credit.owner_id c) b (Credit.units c) now (ledger s)))
           (next_credit_id s).
Proof.
  unfold purchase_credit. destruct (purchase_check s cid) as [c|e] eqn:Hc; [|discriminate].
  apply purchase_check_ok in Hc as (Hf & Hr & Ho).
  rewrite purchase_append_eq. rewrite (find_credit_id _ _ _ Hf).
  intros Hok; inversion Hok; subst. exists c. repeat split; auto.
Qed.

Lemma purchase_credit_not_invalid s cid b now :
  purchase_credit s cid b now <> Err InvalidInput.
Proof.
  unfold purchase_credit, purchase_check.
  destruct (find_credit cid (credits s)); [|discriminate].
  destruct (Credit.is_retired _); [discriminate|].
  destruct (negb _); [discriminate|].
  destruct (purchase_append _ _ _ _); discriminate.
Qed.

Lemma purchase_request_ok s cid b u now t s' :
  purchase_request s cid b u now = Ok (t, s') -> purchase_credit s cid b now = Ok (t, s').
Proof.
  unfold purchase_request. destruct (find_credit cid (credits s)); [|discriminate].
  destruct (negb _); [discriminate|]. auto.
Qed.

Lemma retire_credit_ok s cid u now t s' :
  retire_credit s cid u now = Ok (t, s') ->
  exists c, find_credit cid (credits s) = Some c /\ Credit.is_retired c = false /\
    t = fst (append Retire cid (Credit.owner_id c) u (Credit.units c) now (ledger s)) /\
    s' = mkState (update_credit cid retired (credits s))
           (snd (append Retire cid (Credit.owner_id c) u (Credit.units c) now (ledger s)))
           (next_credit_id s).
Proof.
  unfold retire_credit. destruct (find_credit cid (credits s)) as [c|] eqn:Hf; [|discriminate].
  destruct (Credit.is_retired c) eqn:Hr; [discriminate|].
  rewrite (surjective_pairing (append _ _ _ _ _ _ _)).
  intros Hok; inversion Hok; subst. exists c. repeat split; auto.
Qed.

(** Every request either fails and leaves the state, or is one of the
    three successful transitions. *)
Lemma exec_cases s r :
  exec s r = s \/
  (exists p b u d now c t, mint_credit s p b u d now = Ok (c, t, exec s r)) \/
  (exists cid b now t, purchase_credit s cid b now = Ok (t, exec s r)) \/
  (exists cid u now t, retire_credit s cid u now = Ok (t, exec s r)).
Proof.
  destruct r as [p b u d now|cid b u now|cid u now]; simpl.
  - destruct (mint_credit s p b u d now) as [[[c t] s']|e] eqn:E; [|auto].
    right; left. exists p, b, u, d, now, c, t. exact E.
  - destruct (purchase_request s cid b u now) as [[t s']|e] eqn:E; [|auto].
    right; right; left. exists cid, b, now, t. eapply purchase_request_ok. exact E.
  - destruct (retire_credit s cid u now) as [[t s']|e] eqn:E; [|auto].
    right; right; right. exists cid, u, now, t. exact E.
Qed.

Lemma retires_for_app cid l t :
  retires_for cid (l ++ [t]) =
  retires_for cid l +
  (if Nat.eqb (Transaction.credit_id t) cid
      && transaction_type_eqb (Transaction.transaction_type t) Retire then 1 else 0).
Proof.
  unfold retires_for. rewrite filter_app, length_app. simpl.
  destruct (_ && _); reflexivity.
Qed.

Lemma retires_for_fresh cid l :
  (forall t, In t l -> Transaction.credit_id t < cid) -> retires_for cid l = 0.
Proof.
  intros Hl. unfold retires_for.
  induction l as [|t r IH]; simpl; auto.
  destruct (Nat.eqb (Transaction.credit_id t) cid) eqn:E.
  - apply Nat.eqb_eq in E. specialize (Hl t (or_introl eq_refl)). lia.
  - apply IH. intros t' Ht'. apply Hl. right. exact Ht'.
Qed.

End EngineSteps.

(** ** The invariant of reachable states *)

Section EngineInv.
Context `{Hasher} `{DateParser}.

Lemma in_append_ledger ty cid from to u now l x :
  In x (snd (append ty cid from to u now l)) ->
  In x l \/ x = fst (append ty cid from to u now l).
Proof.
  destruct (append_spec ty cid from to u now l) as (Hsnd & _).
  rewrite Hsnd. intros Hin. apply in_app_or in Hin as [Hin|[<-|[]]]; auto.
Qed.

Lemma engine_inv_init : engine_inv init_state.
Proof.
  unfold engine_inv, init_state; simpl.
  refine (conj _ (conj _ (conj _ (conj _ (conj _ (conj _ _)))))).
  - reflexivity.
  - intros n t Hn. destruct n; discriminate.
  - intros i j a b _ Ha. destruct i; discriminate.
  - intros c [].
  - intros t [].
  - intros cid c Hc. discriminate.
  - constructor.
Qed.

Lemma engine_inv_exec s r : engine_inv s -> engine_inv (exec s r).
Proof.
  intros Hinv.
  destruct (exec_cases s r) as [->|[(p & b & u & d & now & c & t & Hok)
                                   |[(cid & b & now & t & Hok)|(cid & u & now & t & Hok)]]];
    [exact Hinv| | |]; set (s' := exec s r) in *; clearbody s';
    destruct Hinv as (Hv & Hid & Hts & Hcl & Htl & Hret & Hnd).
  - (* mint *)
    apply mint_credit_ok in Hok as (Hu & (dd & Hd & Hc) & Ht & ->).
    destruct (append_spec Mint (next_credit_id s) "" p u now (ledger s))
      as (_ & _ & Hcid & Hty & _).
    unfold engine_inv; simpl.
    refine (conj _ (conj _ (conj _ (conj _ (conj _ (conj _ _)))))).
    + apply append_verify; auto.
    + apply append_ids; auto.
    + apply append_ts; auto.
    + intros x Hx. apply in_app_or in Hx as [Hx|[<-|[]]].
      * specialize (Hcl x Hx). lia.
      * rewrite Hc. simpl. lia.
    + intros x Hx. apply in_append_ledger in Hx as [Hx| ->].
      * specialize (Htl x Hx). lia.
      * rewrite Hcid. lia.
    + intros cid' c' Hf. destruct (append_spec Mint (next_credit_id s) "" p u now (ledger s))
        as (Hsnd & _). rewrite Hsnd, retires_for_app, Hty. simpl.
      rewrite andb_false_r, Nat.add_0_r.
      apply find_credit_app_inv in Hf as [Hf|(_ & -> & Hcid')].
      * apply Hret; auto.
      * rewrite Hc in *. simpl in *. subst cid'. apply retires_for_fresh. exact Htl.
    + rewrite map_app. apply NoDup_app; auto.
      * constructor; [simpl; tauto|constructor].
      * intros i Hi [Hc'|[]]. rewrite Hc in Hc'. simpl in Hc'. subst i.
        apply in_map_iff in Hi as (x & Hx & Hin). specialize (Hcl x Hin). lia.
  - (* purchase *)
    apply purchase_credit_ok in Hok as (c & Hf & Hr & Ho & Ht & ->).
    destruct (append_spec Transfer cid (Credit.owner_id c) b (Credit.units c) now (ledger s))
      as (Hsnd & _ & Hcid & Hty & _).
    unfold engine_inv; simpl.
    refine (conj _ (conj _ (conj _ (conj _ (conj _ (conj _ _)))))).
    + apply append_verify; auto.
    + apply append_ids; auto.
    + apply append_ts; auto.
    + intros x Hx. apply in_update_credit in Hx as (c0 & Hin & ->); [|reflexivity].
      apply Hcl; auto.
    + intros x Hx. apply in_append_ledger in Hx as [Hx| ->]; [apply Htl; auto|].
      rewrite Hcid, <- (find_credit_id _ _ _ Hf). apply Hcl. eapply find_credit_in; eauto.
    + intros cid' c' Hf'. rewrite Hsnd, retires_for_app, Hty. simpl.
      rewrite andb_false_r, Nat.add_0_r.
      rewrite find_credit_update_gen in Hf' by reflexivity.
      destruct (find_credit cid' (credits s)) as [c0|] eqn:E0; [|discriminate].
      simpl in Hf'. inversion Hf'; subst c'. rewrite (Hret _ _ E0).
      destruct (Nat.eqb _ _); reflexivity.
    + rewrite map_id_update by reflexivity. exact Hnd.
  - (* retire *)
    apply retire_credit_ok in Hok as (c & Hf & Hr & Ht & ->).
    destruct (append_spec Retire cid (Credit.owner_id c) u (Credit.units c) now (ledger s))
      as (Hsnd & _ & Hcid & Hty & _).
    unfold engine_inv; simpl.
    refine (conj _ (conj _ (conj _ (conj _ (conj _ (conj _ _)))))).
    + apply append_verify; auto.
    + apply append_ids; auto.
    + apply append_ts; auto.
    + intros x Hx. apply in_update_credit in Hx as (c0 & Hin & ->); [|reflexivity].
      apply Hcl; auto.
    + intros x Hx. apply in_append_ledger in Hx as [Hx| ->]; [apply Htl; auto|].
      rewrite Hcid, <- (find_credit_id _ _ _ Hf). apply Hcl. eapply find_credit_in; eauto.
    + intros cid' c' Hf'. rewrite Hsnd, retires_for_app, Hty, Hcid. simpl.
      rewrite andb_true_r.
      rewrite find_credit_update_gen in Hf' by reflexivity.
      destruct (find_credit cid' (credits s)) as [c0|] eqn:E0; [|discriminate].
      simpl in Hf'. inversion Hf'; subst c'. rewrite (Hret _ _ E0).
      pose proof (find_credit_id _ _ _ E0) as Hid0.
      destruct (Nat.eqb (Credit.id c0) cid) eqn:E.
      * apply Nat.eqb_eq in E. rewrite Hid0 in E. subst cid'.
        rewrite Hf in E0. inversion E0; subst c0. rewrite Hr, Nat.eqb_refl. reflexivity.
      * rewrite Hid0 in E. rewrite Nat.eqb_sym, E. lia.
    + rewrite map_id_update by reflexivity. exact Hnd.
Qed.

Lemma reachable_inv s : reachable s -> engine_inv s.
Proof.
  induction 1; [apply engine_inv_init|]. apply engine_inv_exec. auto.
Qed.

Lemma run_cons s r rs : run s (r :: rs) = run (exec s r) rs.
Proof. reflexivity. Qed.

Lemma reachable_run s rs : reachable s -> reachable (run s rs).
Proof.
  revert s; induction rs as [|r rs IH]; intros s Hs; [exact Hs|].
  rewrite run_cons. apply IH. constructor. exact Hs.
Qed.

(** A credit, once present, stays present with the same units and
    producer, and a retired credit stays retired. *)
Lemma exec_find_credit s r cid c :
  find_credit cid (credits s) = Some c ->
  exists c', find_credit cid (credits (exec s r)) = Some c' /\
    Credit.units c' = Credit.units c /\ Credit.producer_id c' = Credit.producer_id c /\
    (Credit.is_retired c = true -> Credit.is_retired c' = true).
Proof.
  intros Hf.
  destruct (exec_cases s r) as [->|[(p & b & u & d & now & c1 & t & Hok)
                                   |[(cid1 & b & now & t & Hok)|(cid1 & u & now & t & Hok)]]];
    [exists c; auto| | |]; set (s' := exec s r) in *; clearbody s'.
  - apply mint_credit_ok in Hok as (_ & _ & _ & ->). simpl.
    exists c. split; auto. apply find_credit_app; auto.
  - apply purchase_credit_ok in Hok as (c1 & _ & _ & _ & _ & ->). simpl.
    rewrite find_credit_update_gen, Hf by reflexivity. simpl.
    eexists; split; [reflexivity|]. destruct (Nat.eqb _ _); simpl; auto.
  - apply retire_credit_ok in Hok as (c1 & _ & _ & _ & ->). simpl.
    rewrite find_credit_update_gen, Hf by reflexivity. simpl.
    eexists; split; [reflexivity|]. destruct (Nat.eqb _ _); simpl; auto.
Qed.

Lemma run_find_credit s rs cid c :
  find_credit cid (credits s) = Some c ->
  exists c', find_credit cid (credits (run s rs)) = Some c' /\
    Credit.units c' = Credit.units c /\ Credit.producer_id c' = Credit.producer_id c /\
    (Credit.is_retired c = true -> Credit.is_retired c' = true).
Proof.
  revert s c; induction rs as [|r rs IH]; intros s c Hf; [exists c; auto|].
  rewrite run_cons. destruct (exec_find_credit s r cid c Hf) as (c1 & Hf1 & Hu1 & Hp1 & Hr1).
  destruct (IH _ _ Hf1) as (c2 & Hf2 & Hu2 & Hp2 & Hr2).
  exists c2. repeat split; auto; congruence.
Qed.

Lemma exec_ledger_prefix s r : exists ext, ledger (exec s r) = ledger s ++ ext.
Proof.
  destruct (exec_cases s r) as [->|[(p & b & u & d & now & c1 & t & Hok)
                                   |[(cid1 & b & now & t & Hok)|(cid1 & u & now & t & Hok)]]];
    [exists []; rewrite app_nil_r; reflexivity| | |]; set (s' := exec s r) in *; clearbody s'.
  - apply mint_credit_ok in Hok as (_ & _ & _ & ->). simpl.
    eexists. apply append_spec.
  - apply purchase_credit_ok in Hok as (c1 & _ & _ & _ & _ & ->). simpl.
    eexists. apply append_spec.
  - apply retire_credit_ok in Hok as (c1 & _ & _ & _ & ->). simpl.
    eexists. apply append_spec.
Qed.

Lemma run_ledger_prefix s rs : exists ext, ledger (run s rs) = ledger s ++ ext.
Proof.
  revert s; induction rs as [|r rs IH]; intros s; [exists []; rewrite app_nil_r; reflexivity|].
  rewrite run_cons. destruct (exec_ledger_prefix s r) as (e1 & He1).
  destruct (IH (exec s r)) as (e2 & He2). exists (e1 ++ e2). rewrite He2, He1, app_assoc. reflexivity.
Qed.

End EngineInv.

(** C2.  In every reachable ledger the first record carries the genesis
    hash and record [n+1] carries the hash of record [n]; no request ever
    changes or removes a record already appended (the ledger after any
    further requests extends the current one); [VerifyChain] finds no break;
    and [VerifyChain] on any ledger reports [None] exactly when every link
    holds, and otherwise the index of the first broken link. *)
Theorem C2_ledger_hash_chain `{Hasher} `{DateParser} (s : State) :
  reachable s ->
  (forall t, nth_error (ledger s) 0 = Some t -> Transaction.prev_hash t = genesis) /\
  (forall n t' t, nth_error (ledger s) n = Some t' -> nth_error (ledger s) (S n) = Some t ->
     Transaction.prev_hash t = Transaction.integrity_hash t') /\
  (forall rs, exists ext, ledger (run s rs) = ledger s ++ ext) /\
  verify_chain (ledger s) = None /\
  (forall l, verify_chain l = None <-> (forall j, j < length l -> link_ok genesis l j = true)) /\
  (forall l i, verify_chain l = Some i ->
     i < length l /\ link_ok genesis l i = false /\
     (forall j, j < i -> link_ok genesis l j = true)).
Proof.
  intros Hs. destruct (reachable_inv s Hs) as (Hv & _).
  pose proof (proj1 (verify_from_none genesis 0 (ledger s)) Hv) as Hall.
  split; [|split; [|split; [|split; [exact Hv|split]]]].
  - intros t Ht. assert (Hl : 0 < length (ledger s))
      by (apply nth_error_Some; congruence).
    specialize (Hall 0 Hl). unfold link_ok in Hall. rewrite Ht in Hall.
    apply andb_true_iff in Hall as [Hp _]. apply String.eqb_eq in Hp. exact Hp.
  - intros n t' t Ht' Ht. assert (Hl : S n < length (ledger s))
      by (apply nth_error_Some; congruence).
    specialize (Hall (S n) Hl). unfold link_ok in Hall. rewrite Ht in Hall.
    apply andb_true_iff in Hall as [Hp _]. apply String.eqb_eq in Hp.
    simpl in Hp. rewrite Ht' in Hp. exact Hp.
  - intros rs. apply run_ledger_prefix.
  - intros l. apply verify_from_none.
  - intros l i Hi. apply verify_from_some in Hi as (m & -> & Hm & Hb & Hok).
    simpl. auto.
Qed.

Lemma C2_ledger_hash_chain_witness :
  verify_chain (ledger scenario_minted) = None.
Proof.
  exact (proj1 (proj2 (proj2 (proj2 (C2_ledger_hash_chain scenario_minted
                  (reach_exec init_state _ reach_init)))))).
Defined.

Lemma handleMintCredit_post `{JSRuntime} url v resp url' body :
  In (HttpPost url' body) (fst (handleMintCredit url v resp)) ->
  isNaN (Number (units_text v)) = false /\ js_le_zero (Number (units_text v)) = false.
Proof.
  unfold handleMintCredit.
  destruct (String.eqb (batchId v) "" || String.eqb (units_text v) ""
            || String.eqb (productionDate v) ""); simpl; [intuition discriminate|].
  destruct (isNaN (Number (units_text v))) eqn:E1; simpl; [intuition discriminate|].
  destruct (js_le_zero (Number (units_text v))) eqn:E2; simpl; [intuition discriminate|].
  auto.
Qed.

(** C3.  [Mint] fails with [InvalidInput] when [units <= 0] or the
    production date does not parse; otherwise it returns a credit owned by
    the requesting producer, not retired, whose id is not the id of any
    credit already in the store, carrying the request's data and an
    [integrity_hash] computed over [(id, producer_id, batch_id, units,
    production_date)].  The producer dashboard's [handleMintCredit] sends
    the mint request only when [Number(units)] is neither [NaN] nor [<= 0]. *)
Theorem C3_mint_validation `{Hasher} `{DateParser} `{JSRuntime} (s : State) :
  reachable s ->
  (forall p b u d, ((u <= 0)%Q \/ parse_date d = None) ->
     mint s p b u d = Err InvalidInput) /\
  (forall p b u d dd, ~ (u <= 0)%Q -> parse_date d = Some dd ->
     exists c s', mint s p b u d = Ok (c, s') /\
       credits s' = credits s ++ [c] /\
       Credit.owner_id c = p /\ Credit.producer_id c = p /\
       Credit.is_retired c = false /\
       Credit.batch_id c = b /\ Credit.units c = u /\ Credit.production_date c = dd /\
       (forall c0, In c0 (credits s) -> Credit.id c0 <> Credit.id c) /\
       Credit.integrity_hash c = Hash (credit_fields (Credit.id c) p b u dd)) /\
  (forall url v resp url' body, In (HttpPost url' body) (fst (handleMintCredit url v resp)) ->
     isNaN (Number (units_text v)) = false /\ js_le_zero (Number (units_text v)) = false).
Proof.
  intros Hs. destruct (reachable_inv s Hs) as (_ & _ & _ & Hcl & _).
  split; [|split].
  - intros p b u d [Hu|Hd]; unfold mint.
    + apply Qle_bool_iff in Hu. rewrite Hu. reflexivity.
    + rewrite Hd. destruct (Qle_bool u 0); reflexivity.
  - intros p b u d dd Hu Hd. unfold mint.
    destruct (Qle_bool u 0) eqn:E; [apply Qle_bool_iff in E; contradiction|].
    rewrite Hd. eexists _, _. split; [reflexivity|]. simpl.
    repeat split; auto. intros c0 Hc0 Heq. specialize (Hcl c0 Hc0). lia.
  - intros url v resp url' body. apply handleMintCredit_post.
Qed.

Lemma C3_mint_validation_witness :
  mint init_state "producer" "B1" 0 "2024-01-01" = Err InvalidInput.
Proof.
  apply (proj1 (C3_mint_validation init_state reach_init)). left. apply Qle_refl.
Defined.

(** C4.  Once a credit is in a reachable store and not retired, the ledger
    holds no retire record for it; the first [RetireCredit] call succeeds
    and leaves exactly one; after it, whatever requests follow, the credit
    stays retired, the ledger still holds exactly one retire record for
    it, and every further [RetireCredit] call on it fails with
    [AlreadyRetired].  In general a retired credit never becomes
    unretired. *)
Theorem C4_retire_once `{Hasher} `{DateParser} (s : State) (cid : nat) (c : Credit.t)
    (u : string) (now : Z) :
  reachable s -> find_credit cid (credits s) = Some c -> Credit.is_retired c = false ->
  retires_for cid (ledger s) = 0 /\
  (exists t s', retire_credit s cid u now = Ok (t, s') /\
     retires_for cid (ledger s') = 1 /\
     forall rs,
       (exists c', find_credit cid (credits (run s' rs)) = Some c' /\
                   Credit.is_retired c' = true) /\
       retires_for cid (ledger (run s' rs)) = 1 /\
       (forall u' now', retire_credit (run s' rs) cid u' now' = Err AlreadyRetired)) /\
  (forall s0 rs cid0 c0, find_credit cid0 (credits s0) = Some c0 ->
     Credit.is_retired c0 = true ->
     exists c1, find_credit cid0 (credits (run s0 rs)) = Some c1 /\
                Credit.is_retired c1 = true).
Proof.
  intros Hs Hf Hnr.
  destruct (reachable_inv s Hs) as (_ & _ & _ & _ & _ & Hret & _).
  split; [rewrite (Hret _ _ Hf), Hnr; reflexivity|].
  split.
  - assert (Hex : exists t s', retire_credit s cid u now = Ok (t, s')).
    { unfold retire_credit. rewrite Hf, Hnr.
      destruct (append _ _ _ _ _ _ _). eauto. }
    destruct Hex as (t & s' & E). exists t, s'.
    assert (Hreach : reachable s').
    { replace s' with (exec s (RetireReq cid u now)) by (simpl; rewrite E; reflexivity).
      constructor. exact Hs. }
    assert (Hf' : exists c', find_credit cid (credits s') = Some c' /\
                             Credit.is_retired c' = true).
    { apply retire_credit_ok in E as (c1 & Hf1 & _ & _ & ->). simpl.
      rewrite find_credit_update_gen by reflexivity. rewrite Hf1. simpl.
      rewrite (find_credit_id _ _ _ Hf1), Nat.eqb_refl.
      eexists; split; reflexivity. }
    destruct Hf' as (c' & Hf' & Hr').
    split; [exact E|]. split.
    + destruct (reachable_inv s' Hreach) as (_ & _ & _ & _ & _ & Hret' & _).
      rewrite (Hret' _ _ Hf'), Hr'. reflexivity.
    + intros rs.
      destruct (run_find_credit s' rs cid c' Hf') as (c2 & Hf2 & _ & _ & Hr2).
      specialize (Hr2 Hr').
      destruct (reachable_inv (run s' rs) (reachable_run s' rs Hreach))
        as (_ & _ & _ & _ & _ & Hret2 & _).
      split; [exists c2; auto|]. split.
      * rewrite (Hret2 _ _ Hf2), Hr2. reflexivity.
      * intros u' now'. unfold retire_credit. rewrite Hf2, Hr2. reflexivity.
  - intros s0 rs cid0 c0 Hf0 Hr0.
    destruct (run_find_credit s0 rs cid0 c0 Hf0) as (c1 & Hf1 & _ & _ & Hr1).
    exists c1. auto.
Qed.

Lemma C4_retire_once_witness :
  retires_for 0 (ledger scenario_minted) = 0.
Proof.
  exact (proj1 (C4_retire_once scenario_minted 0 scenario_credit "buyer" 5
                  (reach_exec init_state _ reach_init) eq_refl eq_refl)).
Defined.

(** C5.  For every state, [ComputeOverview] reads one snapshot: its total
    is the number of credits, its retired count the number of retired
    credits, its active count the total minus the retired count; hence
    active plus retired is the total. *)
Theorem C5_overview_counts (s : State) :
  total_credits (compute_overview s) = length (credits s) /\
  retired_credits (compute_overview s) = length (filter Credit.is_retired (credits s)) /\
  active_credits (compute_overview s) =
    total_credits (compute_overview s) - retired_credits (compute_overview s) /\
  active_credits (compute_overview s) + retired_credits (compute_overview s) =
    total_credits (compute_overview s).
Proof.
  unfold compute_overview; simpl.
  pose proof (filter_length_le Credit.is_retired (credits s)).
  repeat split; lia.
Qed.

(** ** Sorting an already sorted list *)

Lemma insert_by_time_desc_end x acc :
  (forall y, In y acc -> (Transaction.timestamp x <= Transaction.timestamp y)%Z) ->
  insert_by_time_desc x acc = acc ++ [x].
Proof.
  induction acc as [|y r IH]; simpl; intros Hy; auto.
  destruct (Z.ltb_spec (Transaction.timestamp y) (Transaction.timestamp x)) as [Hlt|Hge].
  - specialize (Hy y (or_introl eq_refl)). lia.
  - rewrite IH; auto.
Qed.

Lemma sort_fold_sorted r acc :
  (forall i j a b, i < j -> nth_error r i = Some a -> nth_error r j = Some b ->
     (Transaction.timestamp b <= Transaction.timestamp a)%Z) ->
  (forall x y, In x acc -> In y r -> (Transaction.timestamp y <= Transaction.timestamp x)%Z) ->
  fold_left (fun acc x => insert_by_time_desc x acc) r acc = acc ++ r.
Proof.
  revert acc; induction r as [|x r IH]; intros acc Hs Hacc; simpl;
    [rewrite app_nil_r; reflexivity|].
  rewrite insert_by_time_desc_end
    by (intros y Hy; exact (Hacc y x Hy (or_introl eq_refl))).
  rewrite IH.
  - rewrite <- app_assoc. reflexivity.
  - intros i j a b Hij Ha Hb. exact (Hs (S i) (S j) a b ltac:(lia) Ha Hb).
  - intros y z Hy Hz. apply in_app_or in Hy as [Hy|[<-|[]]].
    + apply Hacc; auto. right; auto.
    + apply In_nth_error in Hz as (k & Hk).
      exact (Hs 0 (S k) x z ltac:(lia) eq_refl Hk).
Qed.

Lemma sort_by_time_desc_sorted l :
  (forall i j a b, i < j -> nth_error l i = Some a -> nth_error l j = Some b ->
     (Transaction.timestamp b <= Transaction.timestamp a)%Z) ->
  sort_by_time_desc l = l.
Proof.
  intros Hs. unfold sort_by_time_desc. rewrite sort_fold_sorted; auto.
  intros x y [].
Qed.

(** C6.  In every reachable state the ledger's ids are the append
    positions; the sequence served to callers is newest first: of two
    entries, the earlier one served has the larger id (it was appended
    later) and a timestamp no smaller; so it is also ordered by timestamp,
    descending, with ties broken by append order; and the front end's
    re-sort by timestamp alone leaves it unchanged. *)
Theorem C6_transactions_newest_first `{Hasher} `{DateParser} (s : State) :
  reachable s ->
  (forall n t, nth_error (ledger s) n = Some t -> Transaction.id t = n) /\
  (forall i j a b, i < j ->
     nth_error (list_all_newest_first s) i = Some a ->
     nth_error (list_all_newest_first s) j = Some b ->
     Transaction.id b < Transaction.id a /\
     (Transaction.timestamp b <= Transaction.timestamp a)%Z) /\
  (forall current,
     fetchTransactions (Some (true, list_all_newest_first s)) current =
     list_all_newest_first s).
Proof.
  intros Hs. destruct (reachable_inv s Hs) as (_ & Hids & Hts & _).
  assert (Hord : forall i j a b, i < j ->
     nth_error (list_all_newest_first s) i = Some a ->
     nth_error (list_all_newest_first s) j = Some b ->
     Transaction.id b < Transaction.id a /\
     (Transaction.timestamp b <= Transaction.timestamp a)%Z).
  { intros i j a b Hij Ha Hb. unfold list_all_newest_first in Ha, Hb.
    rewrite nth_error_rev in Ha, Hb.
    destruct (Nat.ltb_spec i (length (ledger s))) as [Hi|Hi]; [|discriminate].
    destruct (Nat.ltb_spec j (length (ledger s))) as [Hj|Hj]; [|discriminate].
    rewrite (Hids _ _ Ha), (Hids _ _ Hb). split; [lia|].
    exact (Hts (length (ledger s) - S j) (length (ledger s) - S i) b a ltac:(lia) Hb Ha). }
  split; [exact Hids|]. split; [exact Hord|].
  intros current. simpl. apply sort_by_time_desc_sorted.
  intros i j a b Hij Ha Hb. exact (proj2 (Hord i j a b Hij Ha Hb)).
Qed.

Lemma C6_transactions_newest_first_witness :
  fetchTransactions (Some (true, list_all_newest_first scenario_minted)) [] =
  list_all_newest_first scenario_minted.
Proof.
  exact (proj2 (proj2 (C6_transactions_newest_first scenario_minted
                         (reach_exec init_state _ reach_init))) []).
Defined.

(** C7.  A purchase whose expected units differ from the credit's units
    fails with [InvalidInput]; [executePurchase] sends, in its one request,
    the units of the credit being purchased; and for a credit listed as
    available in a reachable state, a purchase request carrying that
    credit's units never fails with [InvalidInput], whatever requests were
    served in between. *)
Theorem C7_purchase_units `{Hasher} `{DateParser} :
  (forall s cid b u now c, find_credit cid (credits s) = Some c ->
     ~ (u == Credit.units c)%Q -> purchase_request s cid b u now = Err InvalidInput) /\
  (forall url buyer credit resp,
     In (HttpPost (url ++ "/api/buyer/purchase-credit")%string
           [("credit_id", JId (Credit.id credit)); ("buyer_id", JStr buyer);
            ("units", JNum (Num (Credit.units credit)))])
        (executePurchase url buyer credit resp) /\
     (forall url' body, In (HttpPost url' body) (executePurchase url buyer credit resp) ->
        In ("units", JNum (Num (Credit.units credit))) body)) /\
  (forall s rs credit b now, reachable s -> In credit (list_available s) ->
     purchase_request (run s rs) (Credit.id credit) b (Credit.units credit) now
       <> Err InvalidInput).
Proof.
  split; [|split].
  - intros s cid b u now c Hf Hne. unfold purchase_request. rewrite Hf.
    destruct (Qeq_bool u (Credit.units c)) eqn:E; [|reflexivity].
    apply Qeq_bool_iff in E. contradiction.
  - intros url buyer credit resp. split.
    + simpl. right. left. reflexivity.
    + intros url' body Hin. simpl in Hin.
      destruct Hin as [Hin|[Hin|Hin]]; try discriminate.
      * injection Hin as _ <-. simpl. auto.
      * apply in_app_or in Hin as [Hin|[Hin|[]]]; [|discriminate].
        destruct resp as [[[|] h]|]; simpl in Hin; intuition discriminate.
  - intros s rs credit b now Hs Hin.
    destruct (reachable_inv s Hs) as (_ & _ & _ & _ & _ & _ & Hnd).
    unfold list_available in Hin. apply filter_In in Hin as [Hin _].
    pose proof (find_credit_nodup _ _ Hnd Hin) as Hf.
    destruct (run_find_credit s rs _ _ Hf) as (c' & Hf' & Hu & _).
    unfold purchase_request. rewrite Hf', Hu.
    rewrite (proj2 (Qeq_bool_iff _ _) (Qeq_refl _)). simpl.
    apply purchase_credit_not_invalid.
Qed.

Lemma C7_purchase_units_witness :
  purchase_request (run scenario_minted []) 0 "buyer" 100%Q 5%Z <> Err InvalidInput.
Proof.
  exact (proj2 (proj2 C7_purchase_units) scenario_minted [] scenario_credit "buyer" 5%Z
           (reach_exec init_state _ reach_init) (or_introl eq_refl)).
Defined.

(** ** The login screens *)

(** A rejected login shows one alert after dismissing the keyboard. *)
Lemma handleLogin_rejects url u p resp :
  (u = "" \/ p = "" \/ p <> "1234" \/
   ~ In (trim (toLowerCase u)) ["producer"; "buyer"; "regulator"]) ->
  exists title msg, handleLogin url u p resp = [KeyboardDismiss; ShowAlert title msg].
Proof.
  intros Hbad. unfold handleLogin. cbv zeta.
  destruct (String.eqb u "" || String.eqb p "") eqn:E1; [do 2 eexists; reflexivity|].
  destruct (negb (String.eqb p "1234")) eqn:E2; [do 2 eexists; reflexivity|].
  apply orb_false_iff in E1 as [Eu Ep]. apply String.eqb_neq in Eu, Ep.
  apply negb_false_iff, String.eqb_eq in E2.
  destruct Hbad as [H|[H|[H|H]]]; try contradiction.
  destruct (String.eqb (trim (toLowerCase u)) "producer") eqn:E3;
    [apply String.eqb_eq in E3; rewrite E3 in H; simpl in H; tauto|].
  destruct (String.eqb (trim (toLowerCase u)) "buyer") eqn:E4;
    [apply String.eqb_eq in E4; rewrite E4 in H; simpl in H; tauto|].
  destruct (String.eqb (trim (toLowerCase u)) "regulator") eqn:E5;
    [apply String.eqb_eq in E5; rewrite E5 in H; simpl in H; tauto|].
  do 2 eexists; reflexivity.
Qed.

Ltac storage_cases H :=
  repeat match type of H with
         | _ \/ _ => destruct H as [H|H]
         | False => destruct H
         | StorageSetItem _ _ = StorageSetItem _ _ => injection H as <- <-
         | _ = StorageSetItem _ _ => discriminate H
         | In _ _ => progress simpl in H
         end.

(** C8.  On the password login screen ([handleLogin]), a storage write
    happens only when the password is ["1234"], the lowercased trimmed
    username [r] is one of [producer], [buyer], [regulator] and the backend
    reports success, and it writes [r] under [userRole] and [username];
    on such a login the effects are exactly: dismiss the keyboard, show the
    spinner, post [r] to [/api/auth/login], store [userRole] and
    [username] in AsyncStorage, go to [r]'s dashboard, hide the spinner.
    The role-selection screen ([handleRoleSelection]) stores a session for
    the tapped role with no password at all. *)
Theorem C8_login_password_session (url u p : string) (resp : option bool) :
  (forall k v, In (StorageSetItem k v) (handleLogin url u p resp) ->
     p = "1234" /\ In (trim (toLowerCase u)) ["producer"; "buyer"; "regulator"] /\
     resp = Some true /\ (k = "userRole" \/ k = "username") /\
     v = trim (toLowerCase u)) /\
  (u <> "" -> p = "1234" ->
   In (trim (toLowerCase u)) ["producer"; "buyer"; "regulator"] -> resp = Some true ->
   handleLogin url u p resp =
     [KeyboardDismiss; SetIsLoading true;
      HttpPost (url ++ "/api/auth/login")
        [("username", JStr (trim (toLowerCase u))); ("role", JStr (trim (toLowerCase u)))];
      StorageSetItem "userRole" (trim (toLowerCase u));
      StorageSetItem "username" (trim (toLowerCase u));
      RouterReplace ("/" ++ trim (toLowerCase u) ++ "-dashboard");
      SetIsLoading false]) /\
  (forall role, In role ["producer"; "buyer"; "regulator"] ->
     handleRoleSelection role =
       [StorageSetItem "userRole" role; StorageSetItem "username" role;
        RouterPush ("/" ++ role ++ "-dashboard")]).
Proof.
  split; [|split].
  - intros k v Hin. unfold handleLogin in Hin. cbv zeta in Hin.
    destruct (String.eqb u "" || String.eqb p "") eqn:E1; [storage_cases Hin|].
    destruct (negb (String.eqb p "1234")) eqn:E2; [storage_cases Hin|].
    apply negb_false_iff, String.eqb_eq in E2. subst p.
    remember (trim (toLowerCase u)) as r eqn:Hr.
    destruct (String.eqb r "producer") eqn:E3;
      [apply String.eqb_eq in E3; subst r
      |destruct (String.eqb r "buyer") eqn:E4;
        [apply String.eqb_eq in E4; subst r
        |destruct (String.eqb r "regulator") eqn:E5;
          [apply String.eqb_eq in E5; subst r|storage_cases Hin]]];
      (destruct resp as [[|]|]; storage_cases Hin;
       repeat split; simpl; auto 6).
  - intros Hu -> Hr ->. unfold handleLogin. cbv zeta.
    rewrite (proj2 (String.eqb_neq _ _) Hu). simpl orb. cbv [negb String.eqb].
    destruct Hr as [Hr|[Hr|[Hr|[]]]]; rewrite <- Hr; reflexivity.
  - intros role [<-|[<-|[<-|[]]]]; reflexivity.
Qed.

Lemma C8_login_password_session_witness :
  handleLogin "" " Producer" "1234" (Some true) =
    [KeyboardDismiss; SetIsLoading true;
     HttpPost ("" ++ "/api/auth/login") [("username", JStr "producer"); ("role", JStr "producer")];
     StorageSetItem "userRole" "producer"; StorageSetItem "username" "producer";
     RouterReplace ("/" ++ "producer" ++ "-dashboard"); SetIsLoading false].
Proof.
  exact (proj1 (proj2 (C8_login_password_session "" " Producer" "1234" (Some true)))
           ltac:(discriminate) eq_refl ltac:(simpl; auto) eq_refl).
Defined.

(** C8, counterexample: tapping [Producer] on the role-selection screen
    stores the session [userRole = producer], [username = producer] in
    AsyncStorage although no password was entered, so not every way into
    a session requires the password ["1234"]. *)
Lemma C8_role_selection_no_password :
  storage_after [] (handleRoleSelection "producer") =
    [("username", "producer"); ("userRole", "producer")] /\
  ~ (forall role password k v,
       In (StorageSetItem k v) (handleRoleSelection role) -> password = "1234").
Proof.
  split; [reflexivity|].
  intros H. discriminate (H "producer" "" "userRole" "producer" (or_introl eq_refl)).
Qed.

(** C9.  When [batchId], [units] or [productionDate] is empty,
    [handleMintCredit] shows the alert "Please fill in all fields" and
    nothing else: no network request, and the component state (form
    fields, displayed credits, loading flag) is returned unchanged. *)
Theorem C9_mint_empty_field `{JSRuntime} (url : string) (v : ProducerView)
    (resp : option (bool * string)) :
  (batchId v = "" \/ units_text v = "" \/ productionDate v = "") ->
  handleMintCredit url v resp = ([ShowAlert "Error" "Please fill in all fields"], v) /\
  (forall e, In e (fst (handleMintCredit url v resp)) -> is_network e = false) /\
  snd (handleMintCredit url v resp) = v.
Proof.
  intros Hempty.
  assert (Heq : handleMintCredit url v resp =
                ([ShowAlert "Error" "Please fill in all fields"], v)).
  { unfold handleMintCredit.
    replace (String.eqb (batchId v) "" || String.eqb (units_text v) ""
             || String.eqb (productionDate v) "") with true; [reflexivity|].
    destruct Hempty as [ -> | [ -> | -> ] ]; simpl;
      rewrite ?orb_true_r; reflexivity. }
  rewrite Heq. split; [reflexivity|]. split; [|reflexivity].
  intros e [<-|[]]. reflexivity.
Qed.

Lemma C9_mint_empty_field_witness :
  handleMintCredit "" (mkProducerView "" "10" "2024-01-01" [] false "producer") None =
    ([ShowAlert "Error" "Please fill in all fields"],
     mkProducerView "" "10" "2024-01-01" [] false "producer").
Proof.
  exact (proj1 (C9_mint_empty_field "" (mkProducerView "" "10" "2024-01-01" [] false "producer")
                  None (or_introl eq_refl))).
Defined.

(** C10.  A login with an empty username or password, a password other
    than ["1234"], or a username whose lowercased trimmed form is not
    [producer], [buyer] or [regulator] only dismisses the keyboard and
    shows an alert: no network request, no AsyncStorage write, and the
    stored session is unchanged. *)
Theorem C10_login_rejects (url u p : string) (resp : option bool) :
  (u = "" \/ p = "" \/ p <> "1234" \/
   ~ In (trim (toLowerCase u)) ["producer"; "buyer"; "regulator"]) ->
  (exists title msg, handleLogin url u p resp = [KeyboardDismiss; ShowAlert title msg]) /\
  (forall e, In e (handleLogin url u p resp) ->
     is_network e = false /\ is_storage_write e = false) /\
  (forall st, storage_after st (handleLogin url u p resp) = st).
Proof.
  intros Hbad. destruct (handleLogin_rejects url u p resp Hbad) as (title & msg & Heq).
  rewrite Heq. split; [eauto|]. split; [|reflexivity].
  intros e [<-|[<-|[]]]; auto.
Qed.

Lemma C10_login_rejects_witness :
  exists title msg, handleLogin "" "producer" "12345" None = [KeyboardDismiss; ShowAlert title msg].
Proof.
  assert (Hp : "12345" <> "1234") by discriminate.
  exact (proj1 (C10_login_rejects "" "producer" "12345" None
                  (or_intror (or_intror (or_introl Hp))))).
Defined.

(** C10, counterexample: the username ["Producer"] is outside
    [{producer, buyer, regulator}], yet with the password ["1234"]
    [handleLogin] posts to [/api/auth/login] and, on success, writes the
    session to AsyncStorage: the check is made on the lowercased trimmed
    username. *)
Lemma C10_capitalised_username_logs_in :
  ~ In "Producer" ["producer"; "buyer"; "regulator"] /\
  In (HttpPost ("" ++ "/api/auth/login") [("username", JStr "producer"); ("role", JStr "producer")])
     (handleLogin "" "Producer" "1234" (Some true)) /\
  In (StorageSetItem "userRole" "producer") (handleLogin "" "Producer" "1234" (Some true)).
Proof.
  split; [simpl; intuition discriminate|]. split.
  - cbv. right. right. left. reflexivity.
  - cbv. right. right. right. left. reflexivity.
Qed.

(* ================================================================== *)
(** * Further properties of the front end *)

(** A successful login's effects (shared by the session lemmas below). *)
Lemma handleLogin_success url u :
  u <> "" -> In (trim (toLowerCase u)) ["producer"; "buyer"; "regulator"] ->
  handleLogin url u "1234" (Some true) =
    [KeyboardDismiss; SetIsLoading true;
     HttpPost (url ++ "/api/auth/login")
       [("username", JStr (trim (toLowerCase u))); ("role", JStr (trim (toLowerCase u)))];
     StorageSetItem "userRole" (trim (toLowerCase u));
     StorageSetItem "username" (trim (toLowerCase u));
     RouterReplace ("/" ++ trim (toLowerCase u) ++ "-dashboard");
     SetIsLoading false].
Proof.
  intros Hu Hr. unfold handleLogin. cbv zeta.
  rewrite (proj2 (String.eqb_neq _ _) Hu). simpl orb. cbv [negb String.eqb].
  destruct Hr as [Hr|[Hr|[Hr|[]]]]; rewrite <- Hr; reflexivity.
Qed.

(** Login, the spinner: [handleLogin] turns the spinner on exactly when it
    sends the login request, and then its last effect turns it off, whatever
    the backend answers. *)
Theorem handleLogin_spinner (url u p : string) (resp : option bool) :
  existsb is_loading_on (handleLogin url u p resp) =
    existsb is_network (handleLogin url u p resp) /\
  (existsb is_loading_on (handleLogin url u p resp) = true ->
   last (handleLogin url u p resp) KeyboardDismiss = SetIsLoading false).
Proof.
  unfold handleLogin. cbv zeta.
  destruct (String.eqb u "" || String.eqb p ""); [split; [reflexivity|discriminate]|].
  destruct (negb (String.eqb p "1234")); [split; [reflexivity|discriminate]|].
  destruct (String.eqb (trim (toLowerCase u)) "producer");
    [|destruct (String.eqb (trim (toLowerCase u)) "buyer");
      [|destruct (String.eqb (trim (toLowerCase u)) "regulator")]];
    try (split; [reflexivity|discriminate]);
    destruct resp as [[|]|]; split; reflexivity.
Qed.

(** Producer dashboard, the spinner: when [handleMintCredit] turns the
    spinner on, its last effect turns it off and the returned state has
    [isLoading = false]; it never posts without turning the spinner on. *)
Theorem handleMintCredit_spinner `{JSRuntime} (url : string) (v : ProducerView)
    (resp : option (bool * string)) :
  (existsb is_loading_on (fst (handleMintCredit url v resp)) = true ->
   last (fst (handleMintCredit url v resp)) KeyboardDismiss = SetIsLoading false /\
   isLoading (snd (handleMintCredit url v resp)) = false) /\
  (existsb is_network (fst (handleMintCredit url v resp)) = true ->
   existsb is_loading_on (fst (handleMintCredit url v resp)) = true).
Proof.
  unfold handleMintCredit.
  destruct (_ || _ || _); [split; discriminate|].
  destruct (_ || _); [split; discriminate|].
  cbv zeta. simpl fst. simpl snd.
  split; [|reflexivity].
  intros _. split; [|reflexivity].
  rewrite app_comm_cons, last_last. reflexivity.
Qed.

(** Login, normalisation: two non-empty usernames with the same lowercased
    trimmed form behave identically under [handleLogin], whatever the
    password and the backend's answer. *)
Theorem handleLogin_normalised (url u1 u2 p : string) (resp : option bool) :
  u1 <> "" -> u2 <> "" -> trim (toLowerCase u1) = trim (toLowerCase u2) ->
  handleLogin url u1 p resp = handleLogin url u2 p resp.
Proof.
  intros H1 H2 Heq. unfold handleLogin.
  rewrite (proj2 (String.eqb_neq _ _) H1), (proj2 (String.eqb_neq _ _) H2).
  cbv zeta. rewrite Heq. reflexivity.
Qed.

Lemma handleLogin_normalised_witness :
  handleLogin "" "Producer" "1234" (Some true) = handleLogin "" " producer " "1234" (Some true).
Proof.
  apply handleLogin_normalised; [discriminate|discriminate|reflexivity].
Defined.

(** Producer dashboard, the production date: with the fields filled and the
    units valid, when [new Date(productionDate).toISOString()] throws no
    mint request is sent (the error is logged, "Failed to mint credit" is
    shown, the spinner goes off); otherwise the request carries the ISO
    date, the batch id, [Number(units)], and the producer id in its URL. *)
Theorem handleMintCredit_date `{JSRuntime} (url : string) (v : ProducerView)
    (resp : option (bool * string)) :
  batchId v <> "" -> units_text v <> "" -> productionDate v <> "" ->
  isNaN (Number (units_text v)) = false -> js_le_zero (Number (units_text v)) = false ->
  (date_to_iso (productionDate v) = None ->
   fst (handleMintCredit url v resp) =
     [SetIsLoading true; ConsoleError "Error minting credit:";
      ShowAlert "Error" "Failed to mint credit"; SetIsLoading false]) /\
  (forall iso, date_to_iso (productionDate v) = Some iso ->
   In (HttpPost (url ++ "/api/producer/mint-credit?producer_id=" ++ producerId v)
         [("batch_id", JStr (batchId v)); ("units", JNum (Number (units_text v)));
          ("production_date", JStr iso)])
      (fst (handleMintCredit url v resp))).
Proof.
  intros Hb Hu Hd Hn Hz. unfold handleMintCredit.
  rewrite (proj2 (String.eqb_neq _ _) Hb), (proj2 (String.eqb_neq _ _) Hu),
          (proj2 (String.eqb_neq _ _) Hd), Hn, Hz. simpl.
  split.
  - intros ->. reflexivity.
  - intros iso ->. simpl. right. left. reflexivity.
Qed.

Lemma handleMintCredit_date_witness :
  fst (handleMintCredit "" (mkProducerView "B1" "10" "bad" [] false "producer") None) =
    [SetIsLoading true; ConsoleError "Error minting credit:";
     ShowAlert "Error" "Failed to mint credit"; SetIsLoading false].
Proof.
  apply (proj1 (handleMintCredit_date "" (mkProducerView "B1" "10" "bad" [] false "producer")
                  None ltac:(discriminate) ltac:(discriminate) ltac:(discriminate)
                  eq_refl eq_refl)).
  reflexivity.
Defined.

(** Network effects of the data loaders: only the GET, never a POST. *)
Lemma fetchCredits_no_post {A : Type} url read (resp : option (bool * list A)) current :
  forall e, In (FEffect e) (fst (fetchCredits url read resp current)) -> is_network e = false.
Proof.
  intros e H. unfold fetchCredits in H.
  destruct read as [st|];
    [destruct (getItem st "username") as [n|];
      [destruct (String.eqb n ""); [|destruct resp as [[[|] ?]|]]|]|];
    simpl in H;
    repeat match goal with
           | H : _ \/ _ |- _ => destruct H
           | H : False |- _ => destruct H
           | H : FEffect _ = FEffect _ |- _ => injection H as <-; reflexivity
           | H : _ = FEffect _ |- _ => discriminate H
           end.
Qed.


(** Producer dashboard, after a successful mint: the alert's OK button
    clears the three form fields and keeps the producer id; the refresh it
    starts posts nothing, and for a logged-in producer it GETs that
    producer's credits and, on success, displays the list the server
    returned; submitting the cleared form sends no second mint request. *)
Theorem mintSuccessOk_refresh `{JSRuntime} (url url' : string) (v : ProducerView)
    (read : option (list (string * string))) (resp : option (bool * list Credit.t))
    (resp' : option (bool * string)) :
  batchId (snd (mintSuccessOk url v read resp)) = "" /\
  units_text (snd (mintSuccessOk url v read resp)) = "" /\
  productionDate (snd (mintSuccessOk url v read resp)) = "" /\
  producerId (snd (mintSuccessOk url v read resp)) = producerId v /\
  (forall e, In (FEffect e) (fst (mintSuccessOk url v read resp)) -> is_network e = false) /\
  (forall st name credits, read = Some st -> getItem st "username" = Some name -> name <> "" ->
     resp = Some (true, credits) ->
     In (FHttpGet (url ++ "/api/producer/" ++ name ++ "/credits"))
        (fst (mintSuccessOk url v read resp)) /\
     shown_credits (snd (mintSuccessOk url v read resp)) = credits) /\
  handleMintCredit url' (snd (mintSuccessOk url v read resp)) resp' =
    ([ShowAlert "Error" "Please fill in all fields"], snd (mintSuccessOk url v read resp)).
Proof.
  pose proof (fetchCredits_no_post url read resp (shown_credits v)) as Hnp.
  unfold mintSuccessOk.
  destruct (fetchCredits url read resp (shown_credits v)) as [es cs] eqn:E.
  simpl fst in *. simpl snd.
  split; [reflexivity|]. split; [reflexivity|]. split; [reflexivity|].
  split; [reflexivity|]. split; [exact Hnp|]. split; [|reflexivity].
  intros st name credits -> Hn Hne ->.
  unfold fetchCredits in E. rewrite Hn, (proj2 (String.eqb_neq _ _) Hne) in E.
  simpl in E. injection E as <- <-. split; [simpl; auto|reflexivity].
Qed.

Lemma mintSuccessOk_refresh_witness :
  shown_credits (snd (mintSuccessOk "" (mkProducerView "B1" "10" "2024-01-01" [] false "producer")
                        (Some [("username", "producer")]) (Some (true, [scenario_credit]))))
    = [scenario_credit].
Proof.
  assert (Hne : "producer" <> "") by discriminate.
  exact (proj2 (proj1 (proj2 (proj2 (proj2 (proj2 (proj2
           (mintSuccessOk_refresh "" "" (mkProducerView "B1" "10" "2024-01-01" [] false "producer")
              (Some [("username", "producer")]) (Some (true, [scenario_credit])) None))))))
           [("username", "producer")] "producer" [scenario_credit] eq_refl eq_refl Hne eq_refl)).
Defined.

(** Sessions: after a successful login, reopening the app (the login
    screen's [checkExistingSession]) redirects to the dashboard the login
    navigated to, whatever was stored before. *)
Theorem session_after_login (url u : string) (st : list (string * string)) :
  u <> "" -> In (trim (toLowerCase u)) ["producer"; "buyer"; "regulator"] ->
  In (RouterReplace ("/" ++ trim (toLowerCase u) ++ "-dashboard"))
     (handleLogin url u "1234" (Some true)) /\
  checkExistingSession (Some (storage_after st (handleLogin url u "1234" (Some true)))) =
    ([RouterReplace ("/" ++ trim (toLowerCase u) ++ "-dashboard")], true).
Proof.
  intros Hu Hr. rewrite (handleLogin_success url u Hu Hr).
  split; [simpl; auto 7|].
  destruct Hr as [Hr|[Hr|[Hr|[]]]]; rewrite <- Hr; reflexivity.
Qed.

Lemma session_after_login_witness :
  checkExistingSession (Some (storage_after [] (handleLogin "" "Buyer" "1234" (Some true)))) =
    ([RouterReplace ("/" ++ "buyer" ++ "-dashboard")], true).
Proof.
  exact (proj2 (session_after_login "" "Buyer" [] ltac:(discriminate) ltac:(simpl; auto))).
Defined.

(** Sessions: after a role is picked on the role-selection screen, reopening
    the app redirects to the dashboard that screen navigated to. *)
Theorem session_after_role_selection (role : string) (st : list (string * string)) :
  In role ["producer"; "buyer"; "regulator"] ->
  In (RouterPush ("/" ++ role ++ "-dashboard")) (handleRoleSelection role) /\
  checkExistingSession (Some (storage_after st (handleRoleSelection role))) =
    ([RouterReplace ("/" ++ role ++ "-dashboard")], true).
Proof.
  intros [<-|[<-|[<-|[]]]]; split; try reflexivity; simpl; auto.
Qed.

Lemma session_after_role_selection_witness :
  checkExistingSession (Some (storage_after [] (handleRoleSelection "regulator"))) =
    ([RouterReplace ("/" ++ "regulator" ++ "-dashboard")], true).
Proof.
  exact (proj2 (session_after_role_selection "regulator" [] ltac:(simpl; auto))).
Defined.

(** Dashboards' user id: [loadUserData] takes the stored username when it is
    non-empty and otherwise keeps the current id (logging the error when
    storage cannot be read); after a successful login it yields the
    lowercased trimmed username, which the buyer dashboard then sends as
    [buyer_id] in every purchase. *)
Theorem loadUserData_after_login (url u : string) (st : list (string * string))
    (current : string) :
  (forall s, getItem s "username" = None \/ getItem s "username" = Some "" ->
     loadUserData (Some s) current = (current, [])) /\
  (forall s name, getItem s "username" = Some name -> name <> "" ->
     loadUserData (Some s) current = (name, [])) /\
  loadUserData None current = (current, [ConsoleError "Error loading user data:"]) /\
  (u <> "" -> In (trim (toLowerCase u)) ["producer"; "buyer"; "regulator"] ->
   fst (loadUserData (Some (storage_after st (handleLogin url u "1234" (Some true)))) current)
     = trim (toLowerCase u) /\
   forall url' credit resp,
     In (HttpPost (url' ++ "/api/buyer/purchase-credit")
           [("credit_id", JId (Credit.id credit)); ("buyer_id", JStr (trim (toLowerCase u)));
            ("units", JNum (Num (Credit.units credit)))])
        (executePurchase url'
           (fst (loadUserData (Some (storage_after st (handleLogin url u "1234" (Some true)))) current))
           credit resp)).
Proof.
  split; [|split; [|split; [reflexivity|]]].
  - intros s [H|H]; simpl; rewrite H; reflexivity.
  - intros s name H Hn. simpl. rewrite H, (proj2 (String.eqb_neq _ _) Hn). reflexivity.
  - intros Hu Hr.
    assert (Hl : fst (loadUserData (Some (storage_after st (handleLogin url u "1234" (Some true))))
                   current) = trim (toLowerCase u)).
    { rewrite (handleLogin_success url u Hu Hr).
      destruct Hr as [Hr|[Hr|[Hr|[]]]]; rewrite <- Hr; reflexivity. }
    split; [exact Hl|]. intros url' credit resp. rewrite Hl. simpl. auto.
Qed.

Lemma loadUserData_after_login_witness :
  fst (loadUserData (Some (storage_after [] (handleLogin "" "Producer" "1234" (Some true)))) "")
    = "producer".
Proof.
  assert (Hu : "Producer" <> "") by discriminate.
  assert (Hr : In (trim (toLowerCase "Producer")) ["producer"; "buyer"; "regulator"])
    by (simpl; auto).
  exact (proj1 (proj2 (proj2 (proj2 (loadUserData_after_login "" "Producer" [] ""))) Hu Hr)).
Defined.





(** Buyer dashboard, [handlePurchaseCredit]: it first shows the
    confirmation, naming the producer or "Producer" when no name is given;
    "Cancel" sends nothing, "Purchase" runs [executePurchase] on the same
    credit, so the one request sent carries that credit's id and units. *)
Theorem handlePurchaseCredit_confirm (num_to_string : Q -> string) (url buyerId : string)
    (credit : Credit.t) (producer_name : option string) (resp : option (bool * string)) :
  (forall choice, exists msg,
     hd KeyboardDismiss (handlePurchaseCredit num_to_string url buyerId credit producer_name choice resp)
       = ShowAlert "Confirm Purchase" msg) /\
  handlePurchaseCredit num_to_string url buyerId credit producer_name ChooseCancel resp =
    [ShowAlert "Confirm Purchase"
       ("Purchase " ++ num_to_string (Credit.units credit) ++ " kg H₂ from " ++
        match producer_name with
        | Some n => if String.eqb n "" then "Producer" else n
        | None => "Producer"
        end ++ "?")] /\
  tl (handlePurchaseCredit num_to_string url buyerId credit producer_name ChoosePurchase resp) =
    executePurchase url buyerId credit resp /\
  (forall url' body,
     In (HttpPost url' body)
        (handlePurchaseCredit num_to_string url buyerId credit producer_name ChoosePurchase resp) ->
     url' = (url ++ "/api/buyer/purchase-credit")%string /\
     body = [("credit_id", JId (Credit.id credit)); ("buyer_id", JStr buyerId);
             ("units", JNum (Num (Credit.units credit)))]).
Proof.
  split; [intros choice; eexists; reflexivity|].
  split; [reflexivity|]. split; [reflexivity|].
  intros url' body [Hin|Hin]; [discriminate|].
  unfold executePurchase in Hin.
  destruct Hin as [Hin|[Hin|Hin]]; [discriminate|injection Hin as <- <-; auto|].
  apply in_app_or in Hin as [Hin|[Hin|[]]]; [|discriminate].
  destruct resp as [[[|] h]|]; simpl in Hin; intuition discriminate.
Qed.

(** ** The regulator dashboard's sort *)

Lemma insert_by_time_desc_perm x l : Permutation (insert_by_time_desc x l) (x :: l).
Proof.
  induction l as [|y r IH]; simpl; [reflexivity|].
  destruct (_ <? _)%Z; [reflexivity|].
  eapply perm_trans; [apply perm_skip, IH|apply perm_swap].
Qed.

Lemma sort_fold_perm l acc :
  Permutation (fold_left (fun acc x => insert_by_time_desc x acc) l acc) (l ++ acc).
Proof.
  revert acc; induction l as [|x l IH]; intros acc; simpl; [reflexivity|].
  eapply perm_trans; [apply IH|].
  eapply perm_trans; [apply Permutation_app_head, insert_by_time_desc_perm|].
  apply Permutation_sym, Permutation_middle.
Qed.

Lemma insert_by_time_desc_hdrel y x l :
  HdRel newest_first y l -> newest_first y x -> HdRel newest_first y (insert_by_time_desc x l).
Proof.
  destruct l as [|z r]; simpl; intros H1 H2; [constructor; exact H2|].
  destruct (_ <? _)%Z; constructor; [exact H2|inversion H1; assumption].
Qed.

Lemma insert_by_time_desc_sorted x l :
  Sorted newest_first l -> Sorted newest_first (insert_by_time_desc x l).
Proof.
  induction l as [|y r IH]; simpl; intros Hs; [repeat constructor|].
  destruct (Z.ltb_spec (Transaction.timestamp y) (Transaction.timestamp x)) as [Hlt|Hge].
  - constructor; [exact Hs|constructor; unfold newest_first; lia].
  - inversion Hs as [|? ? Hr Hhd]; subst.
    constructor; [apply IH; exact Hr|].
    apply insert_by_time_desc_hdrel; [exact Hhd|unfold newest_first; lia].
Qed.

Lemma sort_fold_sorted_gen l acc :
  Sorted newest_first acc ->
  Sorted newest_first (fold_left (fun acc x => insert_by_time_desc x acc) l acc).
Proof.
  revert acc; induction l as [|x l IH]; intros acc Hs; simpl; [exact Hs|].
  apply IH, insert_by_time_desc_sorted, Hs.
Qed.

(** Regulator dashboard, [fetchTransactions]: for any list the backend
    returns with [success], the stored list is a rearrangement of it with
    timestamps non-increasing (newest first); otherwise the stored list is
    kept. *)
Theorem fetchTransactions_sorted (txs current : list Transaction.t) :
  Permutation (fetchTransactions (Some (true, txs)) current) txs /\
  Sorted newest_first (fetchTransactions (Some (true, txs)) current) /\
  fetchTransactions (Some (false, txs)) current = current /\
  fetchTransactions None current = current.
Proof.
  split; [|split; [|split; reflexivity]]; simpl; unfold sort_by_time_desc.
  - pose proof (sort_fold_perm txs []) as P. rewrite app_nil_r in P. exact P.
  - apply sort_fold_sorted_gen. constructor.
Qed.

(** Regulator dashboard, the transaction badges: the three ledger
    transaction types get three different colours and three different
    icons, none of them the fallback; every other type string gets the
    fallback grey and clipboard. *)
Theorem transaction_type_badges :
  (forall t1 t2, t1 <> t2 ->
     getTransactionTypeColor (transaction_type_name t1) <>
       getTransactionTypeColor (transaction_type_name t2) /\
     getTransactionTypeIcon (transaction_type_name t1) <>
       getTransactionTypeIcon (transaction_type_name t2)) /\
  (forall t, getTransactionTypeColor (transaction_type_name t) <> "#64748b" /\
             getTransactionTypeIcon (transaction_type_name t) <> "📋") /\
  (forall s, ~ In s (map transaction_type_name [Mint; Transfer; Retire]) ->
     getTransactionTypeColor s = "#64748b" /\ getTransactionTypeIcon s = "📋").
Proof.
  split; [|split].
  - intros [] [] H; try (exfalso; apply H; reflexivity); split; discriminate.
  - intros []; split; discriminate.
  - intros s Hs. simpl in Hs. unfold getTransactionTypeColor, getTransactionTypeIcon.
    destruct (String.eqb_spec s "mint"); [subst; tauto|].
    destruct (String.eqb_spec s "transfer"); [subst; tauto|].
    destruct (String.eqb_spec s "retire"); [subst; tauto|].
    auto.
Qed.

Lemma handleLogin_spinner_witness :
  last (handleLogin "" "buyer" "1234" None) KeyboardDismiss = SetIsLoading false.
Proof.
  exact (proj2 (handleLogin_spinner "" "buyer" "1234" None) eq_refl).
Defined.

Lemma handleMintCredit_spinner_witness :
  last (fst (handleMintCredit "" (mkProducerView "B1" "10" "2024-01-01" [] false "producer") None))
    KeyboardDismiss = SetIsLoading false.
Proof.
  exact (proj1 (proj1 (handleMintCredit_spinner ""
                         (mkProducerView "B1" "10" "2024-01-01" [] false "producer") None) eq_refl)).
Defined.

Lemma handlePurchaseCredit_confirm_witness :
  ("" ++ "/api/buyer/purchase-credit")%string = ("" ++ "/api/buyer/purchase-credit")%string /\
  [("credit_id", JId 0); ("buyer_id", JStr "buyer"); ("units", JNum (Num 100))] =
    [("credit_id", JId (Credit.id scenario_credit)); ("buyer_id", JStr "buyer");
     ("units", JNum (Num (Credit.units scenario_credit)))].
Proof.
  assert (Hin : In (HttpPost ("" ++ "/api/buyer/purchase-credit")
                      [("credit_id", JId 0); ("buyer_id", JStr "buyer"); ("units", JNum (Num 100))])
                   (handlePurchaseCredit (fun _ => "100") "" "buyer" scenario_credit None
                      ChoosePurchase None))
    by (simpl; auto).
  exact (proj2 (proj2 (proj2 (handlePurchaseCredit_confirm (fun _ => "100") "" "buyer"
                                scenario_credit None None))) _ _ Hin).
Defined.

Lemma transaction_type_badges_witness :
  getTransactionTypeColor "burn" = "#64748b" /\ getTransactionTypeIcon "burn" = "📋".
Proof.
  assert (Hs : ~ In "burn" (map transaction_type_name [Mint; Transfer; Retire]))
    by (simpl; intuition discriminate).
  exact (proj2 (proj2 transaction_type_badges) "burn" Hs).
Defined.
